(** * Verification of the client core of the Neural Style Transfer front end

    Shallow embedding of the Angular services and page components found
    under [src/my-project/src/app]: the job polling pipeline of
    [StyleTransferService], the session store of [AuthService], the
    gallery ingestion of [GalleryService] and the page components that
    drive them. *)

From Stdlib Require Import String Ascii List Bool ZArith Lia.
From Stdlib Require Import Permutation QArith Qround Qabs Lqa Sorted.
Set Warnings "-register-all".
Import ListNotations.
Open Scope string_scope.
Open Scope list_scope.
Close Scope Q_scope.

(* ------------------------------------------------------------------ *)
(** ** Job status and the polling pipeline ([style-transfer.service.ts]) *)

Module Polling.

(** [StyleTransferJob.status]. *)
Inductive status := Pending | Processing | Completed | Failed.

(** The predicate handed to [takeWhile] in [pollJobStatus]:
    [job.status === 'pending' || job.status === 'processing']. *)
Definition keep_polling (s : status) : bool :=
  match s with
  | Pending | Processing => true
  | Completed | Failed => false
  end.

(** Events seen by the pipeline
    [interval(pollInterval).pipe(switchMap(() => getJobStatus(jobId)),
                                 takeWhile(keep_polling, true))]:
    a tick of [interval], the response to the HTTP request numbered [n],
    or the failure of request [n] (the [catchError] of [getJobStatus]
    rethrows, so the error reaches the subscriber). *)
Inductive event :=
  | Tick
  | Resp (n : nat) (s : status)
  | RespErr (n : nat).

(** What the subscriber receives. *)
Inductive output := Next (s : status) | Complete | Error.

(** State of the subscription: whether it is still subscribed, the
    request currently subscribed by [switchMap] (an inner observable that
    has been unsubscribed is cancelled and its response never reaches the
    pipeline), the number of the next request, every request issued so far
    and every request cancelled by [switchMap]. *)
Record pstate := mkP {
  active : bool;
  inflight : option nat;
  next_req : nat;
  issued : list nat;
  cancelled : list nat;
  emitted : list output
}.

Definition init : pstate := mkP true None 0 [] [] [].

Definition step (st : pstate) (e : event) : pstate :=
  if negb (active st) then st else
  match e with
  | Tick =>
      (* switchMap: unsubscribe from the previous inner observable, then
         subscribe to a fresh [getJobStatus(jobId)], i.e. issue a request. *)
      let n := next_req st in
      mkP true (Some n) (S n) (issued st ++ [n])
          (match inflight st with Some m => cancelled st ++ [m] | None => cancelled st end)
          (emitted st)
  | Resp n s =>
      if (match inflight st with Some m => Nat.eqb m n | None => false end) then
        if keep_polling s then
          mkP true None (next_req st) (issued st) (cancelled st) (emitted st ++ [Next s])
        else
          (* takeWhile with inclusive = true: emit the failing value,
             then complete, which unsubscribes from interval/switchMap. *)
          mkP false None (next_req st) (issued st) (cancelled st)
              (emitted st ++ [Next s; Complete])
      else st
  | RespErr n =>
      if (match inflight st with Some m => Nat.eqb m n | None => false end) then
        mkP false None (next_req st) (issued st) (cancelled st) (emitted st ++ [Error])
      else st
  end.

Definition run (st : pstate) (evs : list event) : pstate := fold_left step evs st.

(** A schedule in which every check answers before the next tick: the
    [k]-th tick issues request [k], whose response is the [k]-th element. *)
Fixpoint answered_from (k : nat) (rs : list status) : list event :=
  match rs with
  | [] => []
  | r :: rs' => Tick :: Resp k r :: answered_from (S k) rs'
  end.

Definition answered (rs : list status) : list event := answered_from 0 rs.

End Polling.

(* ------------------------------------------------------------------ *)
(** ** JavaScript values *)

Module JS.

(** A JavaScript number. Finite doubles are represented by the rational
    they denote; the operations used below are exact on the inputs the
    development evaluates. *)
Inductive num := Fin (q : Q) | PosInf | NegInf | NaN.

(** Values as delivered by [JSON.parse] / [HttpClient]. *)
Inductive jsval :=
  | JUndef
  | JNull
  | JBool (b : bool)
  | JNum (n : num)
  | JStr (s : string)
  | JArr (xs : list jsval)
  | JObj (fs : list (string * jsval)).

(** Property read [v.k] (and [v?.k]: on [null]/[undefined] it yields
    [undefined]). None of the property names the code reads exists on
    primitives or arrays. *)
Definition get (k : string) (v : jsval) : jsval :=
  match v with
  | JObj fs =>
      match find (fun p => String.eqb (fst p) k) fs with
      | Some (_, x) => x
      | None => JUndef
      end
  | _ => JUndef
  end.

(** [!!v]. *)
Definition truthy (v : jsval) : bool :=
  match v with
  | JUndef | JNull => false
  | JBool b => b
  | JNum (Fin q) => negb (Qeq_bool q 0)
  | JNum NaN => false
  | JNum _ => true
  | JStr s => negb (String.eqb s "")
  | JArr _ | JObj _ => true
  end.

(** [a || b]. *)
Definition or (a b : jsval) : jsval := if truthy a then a else b.

Definition is_nan (n : num) : bool := match n with NaN => true | _ => false end.

Section ToNumber.
(** StringToNumber, the parser of numeric strings of the language. *)
Variable string_to_number : string -> num.

(** [Number(v)]: the abstract operation ToNumber. An array converts through
    its [join(',')]: the empty array gives 0, an array of two or more
    elements a string with a comma, which is never numeric. *)
Fixpoint to_number (v : jsval) : num :=
  match v with
  | JUndef => NaN
  | JNull => Fin 0
  | JBool b => Fin (if b then 1 else 0)
  | JNum n => n
  | JStr s => string_to_number s
  | JArr [] => Fin 0
  | JArr [x] =>
      match x with
      | JUndef | JNull => Fin 0
      | JBool _ | JObj _ => NaN
      | _ => to_number x
      end
  | JArr _ => NaN
  | JObj _ => NaN
  end.
End ToNumber.

End JS.

(* ------------------------------------------------------------------ *)
(** ** [formatValue] ([gallery-page.component.ts]) *)

Module Format.
Import JS.

Definition digit (n : N) : ascii := ascii_of_N (48 + n).

Fixpoint digits_aux (fuel : nat) (n : N) (acc : string) : string :=
  match fuel with
  | O => acc
  | S f =>
      let acc' := String (digit (N.modulo n 10)) acc in
      if N.ltb n 10 then acc' else digits_aux f (N.div n 10) acc'
  end.

(** Decimal digits of a natural number. *)
Definition digits (n : N) : string := digits_aux (S (N.size_nat n)) n "".

Fixpoint zeros (k : nat) : string :=
  match k with O => "" | S k' => String "0" (zeros k') end.

Section ToFixed.
(** Number::toString, used by [toFixed] for magnitudes of [10^21] and
    more. *)
Variable number_to_string : Q -> string.

(** [Number.prototype.toFixed(f)] on a finite non-negative [x < 10^21]:
    the integer [n] with [n / 10^f - x] closest to zero, the larger one on
    a tie, written with [f] fractional digits. *)
Definition to_fixed_nonneg (x : Q) (f : nat) : string :=
  let n := Z.to_N (Qfloor (x * inject_Z (10 ^ Z.of_nat f) + (1 # 2))%Q) in
  let m := digits n in
  if Nat.eqb f 0 then m else
  let m := if Nat.leb (String.length m) f
           then (zeros (S f - String.length m) ++ m)%string else m in
  let k := String.length m in
  (substring 0 (k - f) m ++ "." ++ substring (k - f) f m)%string.

Definition toFixed (x : Q) (f : nat) : string :=
  if Qle_bool (10 ^ 21)%Q (Qabs x) then number_to_string x
  else if negb (Qle_bool 0 x) then ("-" ++ to_fixed_nonneg (- x)%Q f)%string
  else to_fixed_nonneg x f.

(** The parameter of [formatValue]: [number | null | undefined]. *)
Inductive arg := ANull | AUndefined | ANum (n : num).

Definition formatValue (value : arg) : string :=
  match value with
  | ANull | AUndefined => "--"
  | ANum NaN => "N/A"
  | ANum PosInf => "∞"
  | ANum NegInf => "-∞"
  | ANum (Fin v) =>
      if Qle_bool 1000000 v then (toFixed (v / 1000000)%Q 1 ++ "M")%string
      else if Qle_bool 1000 v then (toFixed (v / 1000)%Q 1 ++ "K")%string
      else toFixed v 2
  end.
End ToFixed.

End Format.

(* ------------------------------------------------------------------ *)
(** ** Gallery ingestion ([gallery.service.ts]) *)

Module Gallery.
Import JS.

(** [new Date(item.timestamp)] or [new Date()]. *)
Inductive date := DateOf (v : jsval) | DateNow.

Record parameters := mkParams {
  styleWeight : num;
  contentWeight : num;
  numSteps : jsval;
  layerWeights : jsval
}.

Record GalleryItem := mkItem {
  id : jsval;
  timestamp : date;
  contentImageUrl : jsval;
  styleImageUrl : jsval;
  resultImageUrl : jsval;
  bestLoss : num;
  styleLoss : num;
  contentLoss : num;
  processingTime : num;
  params : parameters
}.

(** Result of [mapGalleryItem]: [{} as GalleryItem] or a full item. *)
Inductive mapped := MEmpty | MItem (g : GalleryItem).

Section Mapping.
Variable string_to_number : string -> num.

(** [ensureNumber]. *)
Definition ensureNumber (value : jsval) : num :=
  match value with
  | JNull | JUndef => Fin 0
  | _ => if is_nan (to_number string_to_number value) then Fin 0
         else to_number string_to_number value
  end.

(** [mapGalleryItem]. *)
Definition mapGalleryItem (item : jsval) : mapped :=
  if negb (truthy item) then MEmpty else
  let p := get "parameters" item in
  MItem (mkItem
    (or (get "id" item) (JStr ""))
    (if truthy (get "timestamp" item) then DateOf (get "timestamp" item) else DateNow)
    (or (get "contentImageUrl" item) (JStr ""))
    (or (get "styleImageUrl" item) (JStr ""))
    (or (get "resultImageUrl" item) (JStr ""))
    (ensureNumber (get "bestLoss" item))
    (ensureNumber (get "styleLoss" item))
    (ensureNumber (get "contentLoss" item))
    (ensureNumber (get "processingTime" item))
    (mkParams
       (ensureNumber (get "styleWeight" p))
       (ensureNumber (get "contentWeight" p))
       (or (get "numSteps" p) (JNum (Fin 300)))
       (or (get "layerWeights" p) (JObj [])))).
End Mapping.

Definition item_of (m : mapped) : option GalleryItem :=
  match m with MItem g => Some g | MEmpty => None end.

End Gallery.

(* ------------------------------------------------------------------ *)
(** ** Session store ([auth.service.ts]) *)

Module Auth.
Import JS.

(** Outcome of a synchronous call: a value, or an exception. *)
Inductive result (A : Type) := Ok (a : A) | Throw (e : string).
Arguments Ok {A} a.
Arguments Throw {A} e.

Definition bind {A B} (r : result A) (k : A -> result B) : result B :=
  match r with Ok a => k a | Throw e => Throw e end.

(** [try { r } catch { h }]. *)
Definition try_catch {A} (r : result A) (h : string -> result A) : result A :=
  match r with Ok a => Ok a | Throw e => h e end.

(** [localStorage]. *)
Definition storage := list (string * string).

Definition getItem (k : string) (ls : storage) : option string :=
  match find (fun p => String.eqb (fst p) k) ls with
  | Some (_, v) => Some v
  | None => None
  end.

Definition removeItem (k : string) (ls : storage) : storage :=
  filter (fun p => negb (String.eqb (fst p) k)) ls.

Definition setItem (k v : string) (ls : storage) : storage := (k, v) :: removeItem k ls.

Definition tokenKey := "auth_token".
Definition userKey := "auth_user".

(** The service: its store and [currentUserSubject.value]. *)
Record service := mkService { ls : storage; currentUser : jsval }.

(** The login response body. *)
Record login_response := mkResp {
  access_token : string;
  is_master : jsval;
  email : jsval
}.

(** Session Manager operations. *)
Inductive op :=
  | OpConstruct
  | OpLoginSuccess (r : login_response)
  | OpLogout
  | OpIsAuthenticated
  | OpIsAdmin
  | OpGetCurrentUser
  | OpGetToken
  | OpGetAuthHeaders.

Inductive out :=
  | OUnit
  | OBool (b : bool)
  | OVal (v : jsval)
  | OToken (t : option string)
  | OHeaders (h : list (string * string)).

Section Service.
(** [JSON.parse]: [None] when the text is not JSON (it throws). *)
Variable json_parse : string -> option jsval.
Variable json_stringify : jsval -> string.

Definition parse (s : string) : result jsval :=
  match json_parse s with Some v => Ok v | None => Throw "SyntaxError" end.

(** [getStoredUser]. *)
Definition getStoredUser (st : storage) : result jsval :=
  match getItem userKey st with
  | Some userStr =>
      if truthy (JStr userStr) then try_catch (parse userStr) (fun _ => Ok JNull)
      else Ok JNull
  | None => Ok JNull
  end.

(** [user?.isMaster]. *)
Definition optional_get (k : string) (v : jsval) : jsval :=
  match v with JNull | JUndef => JUndef | _ => get k v end.

(** [isAdmin]. *)
Definition isAdmin (st : storage) : result jsval :=
  bind (getStoredUser st) (fun user => Ok (or (optional_get "isMaster" user) (JBool false))).

Definition getToken (st : storage) : option string := getItem tokenKey st.

Definition isAuthenticated (st : storage) : bool :=
  match getToken st with Some t => truthy (JStr t) | None => false end.

Definition getAuthHeaders (st : storage) : list (string * string) :=
  match getToken st with
  | Some t => if truthy (JStr t) then [("Authorization", "Bearer " ++ t)%string] else []
  | None => []
  end.

(** The [tap] of [login] on a successful response. *)
Definition loginSuccess (r : login_response) (sv : service) : service :=
  let user := JObj [("email", or (email r) JNull); ("isMaster", is_master r)] in
  mkService (setItem userKey (json_stringify user) (setItem tokenKey (access_token r) (ls sv)))
            user.

Definition run_op (o : op) (sv : service) : result (service * out) :=
  match o with
  | OpConstruct =>
      bind (getStoredUser (ls sv)) (fun u => Ok (mkService (ls sv) u, OUnit))
  | OpLoginSuccess r => Ok (loginSuccess r sv, OUnit)
  | OpLogout => Ok (mkService (removeItem userKey (removeItem tokenKey (ls sv))) JNull, OUnit)
  | OpIsAuthenticated => Ok (sv, OBool (isAuthenticated (ls sv)))
  | OpIsAdmin => bind (isAdmin (ls sv)) (fun v => Ok (sv, OVal v))
  | OpGetCurrentUser => Ok (sv, OVal (currentUser sv))
  | OpGetToken => Ok (sv, OToken (getToken (ls sv)))
  | OpGetAuthHeaders => Ok (sv, OHeaders (getAuthHeaders (ls sv)))
  end.
End Service.

End Auth.

(* ------------------------------------------------------------------ *)
(** ** Login ([auth.service.ts], [auth-modal.component.ts]) *)

Module Login.
Import JS.

(** [LoginCredentials]: [email?], [password], [masterPassword?]. *)
Record LoginCredentials := mkCred {
  c_email : option string;
  c_password : string;
  c_masterPassword : option string
}.

Definition present (o : option string) : bool :=
  match o with Some x => truthy (JStr x) | None => false end.

(** What a call ends in: a local error shown in the modal, or a POST
    of the given body. *)
Inductive outcome :=
  | LocalError (loginError : string)
  | Post (endpoint : string) (body : list (string * string)).

(** [AuthService.login]: builds the body and always posts it. *)
Definition login (credentials : LoginCredentials) : outcome :=
  let body := [("password", c_password credentials)] in
  let body :=
    if present (c_masterPassword credentials) then
      match c_masterPassword credentials with
      | Some m => body ++ [("master_password", m)] | None => body end
    else if present (c_email credentials) then
      match c_email credentials with
      | Some e => body ++ [("email", e)] | None => body end
    else body in
  Post "/auth/login" body.

Definition missing_credentials_msg :=
  "Please provide either email/password or master password".

(** [AuthModalComponent.onLogin], on the form's [loginCredentials]. *)
Definition onLogin (loginCredentials : LoginCredentials) : outcome :=
  let pw := c_password loginCredentials in
  if present (c_masterPassword loginCredentials) then
    login (mkCred None pw (c_masterPassword loginCredentials))
  else if present (c_email loginCredentials) then
    login (mkCred (c_email loginCredentials) pw None)
  else LocalError missing_credentials_msg.

End Login.

(* ------------------------------------------------------------------ *)
(** ** Error translation of authenticated calls *)

Module Errors.
Import JS.

(** [HttpErrorResponse]: [status], [error.detail] (empty when absent),
    [error] as an [ErrorEvent] (client-side failure) and [message]. *)
Record HttpError := mkErr {
  status : nat;
  detail : string;
  client_event : option string;
  message : string
}.

Definition auth_required_msg := "Authentication required. Please sign in.".

(** [error.error?.detail || error.message]. *)
Definition detail_or_message (e : HttpError) : string :=
  if String.eqb (detail e) "" then message e else detail e.

(** [catchError] of [transferStyle]: the message of the rethrown [Error]. *)
Definition transferStyle_error (e : HttpError) : string :=
  if Nat.eqb (status e) 401 then auth_required_msg
  else ("Failed to start style transfer: " ++ detail_or_message e)%string.

(** [GalleryService.handleError]. *)
Definition handleError (e : HttpError) : string :=
  match client_event e with
  | Some m => ("Error: " ++ m)%string
  | None => ("Error Code: " ++ Format.digits (N.of_nat (status e)) ++
             String (ascii_of_nat 10) "Message: " ++ message e)%string
  end.

(** [catchError] of [deleteGalleryItem]. *)
Definition deleteGalleryItem_error (e : HttpError) : string :=
  if Nat.eqb (status e) 401 then auth_required_msg else handleError e.

(** The authenticated calls of the client. *)
Inductive call :=
  | TransferStyle
  | DeleteGalleryItem
  | AdminLoadRequests
  | AdminLoadUsers
  | AdminApproveRequest
  | AdminRejectRequest
  | AdminDeleteRequest
  | AdminCreateUser
  | AdminDeleteUser.

(** What the subscriber's [error] callback receives: an [Error] built by
    the service, or the raw [HttpErrorResponse] (the admin page calls
    [http] directly, with no [catchError]). *)
Inductive delivered := Translated (msg : string) | Raw (e : HttpError).

Definition delivered_error (c : call) (e : HttpError) : delivered :=
  match c with
  | TransferStyle => Translated (transferStyle_error e)
  | DeleteGalleryItem => Translated (deleteGalleryItem_error e)
  | _ => Raw e
  end.

Definition AuthRequired : delivered := Translated auth_required_msg.

(** The part of [AdminPageComponent] that [loadRequests] touches. *)
Record admin_state := mkAdmin {
  requests : list string;
  isLoadingRequests : bool
}.

(** [error] callback of [loadRequests]. *)
Definition loadRequests_error (st : admin_state) (e : HttpError) : admin_state :=
  mkAdmin (requests st) false.

End Errors.

(* ------------------------------------------------------------------ *)
(** ** Gallery page: filtering, sorting, deletion
    ([gallery-page.component.ts]) *)

Module GalleryPage.
Import JS Gallery.

Definition num_neg (n : num) : num :=
  match n with Fin q => Fin (- q) | PosInf => NegInf | NegInf => PosInf | NaN => NaN end.

(** Number addition. *)
Definition num_add (a b : num) : num :=
  match a, b with
  | NaN, _ | _, NaN => NaN
  | PosInf, NegInf | NegInf, PosInf => NaN
  | PosInf, _ | _, PosInf => PosInf
  | NegInf, _ | _, NegInf => NegInf
  | Fin x, Fin y => Fin (x + y)
  end.

Definition num_sub (a b : num) : num := num_add a (num_neg b).

(** A comparator result below zero: [a] goes before [b]. NaN counts as
    +0, as in [Array.prototype.sort]. *)
Definition num_lt0 (n : num) : bool :=
  match n with Fin q => negb (Qle_bool 0 q) | NegInf => true | _ => false end.

(** Stable sort by a comparator (the engines' [Array.prototype.sort] is
    stable): insertion, each element placed after those it does not
    precede. *)
Fixpoint insert {A} (cmp : A -> A -> num) (x : A) (ys : list A) : list A :=
  match ys with
  | [] => [x]
  | y :: ys' => if num_lt0 (cmp x y) then x :: ys else y :: insert cmp x ys'
  end.

Definition sort {A} (cmp : A -> A -> num) (l : list A) : list A :=
  fold_left (fun acc x => insert cmp x acc) l [].

(** [item.id !== id]. *)
Definition id_differs (v : jsval) (target : string) : bool :=
  match v with JStr s => negb (String.eqb s target) | _ => true end.

(** [String.prototype.includes]. *)
Fixpoint includes (needle hay : string) : bool :=
  if String.prefix needle hay then true
  else match hay with EmptyString => false | String _ rest => includes needle rest end.

(** Component state. *)
Record page := mkPage {
  allGalleryItems : list GalleryItem;
  filteredItems : list GalleryItem;
  sortOption : string;
  activePresetFilter : string;
  showAuthModal : bool;
  alerts : list string
}.

Section Page.
Variable string_to_number : string -> num.
(** [new Date(x.timestamp).getTime()]. *)
Variable getTime : date -> num.
(** [WeightPresetService.getPresetLabel]: the external classifier. *)
Variable getPresetLabel : num -> num -> string.

Definition getBalanceLabel (item : GalleryItem) : string :=
  getPresetLabel (styleWeight (params item)) (contentWeight (params item)).

Definition total_loss (x : GalleryItem) : num := num_add (styleLoss x) (contentLoss x).

(** The comparator chosen by the [switch] on [sortOption]. *)
Definition comparator (sortOption : string) : GalleryItem -> GalleryItem -> num :=
  if String.eqb sortOption "newest" then
    fun a b => num_sub (getTime (timestamp b)) (getTime (timestamp a))
  else if String.eqb sortOption "oldest" then
    fun a b => num_sub (getTime (timestamp a)) (getTime (timestamp b))
  else if String.eqb sortOption "lossAsc" then
    fun a b => num_sub (total_loss a) (total_loss b)
  else if String.eqb sortOption "lossDesc" then
    fun a b => num_sub (total_loss b) (total_loss a)
  else if String.eqb sortOption "processingTime" then
    fun a b => num_sub (processingTime b) (processingTime a)
  else if String.eqb sortOption "steps" then
    fun a b => num_sub (to_number string_to_number (numSteps (params b)))
                       (to_number string_to_number (numSteps (params a)))
  else
    fun a b => num_sub (getTime (timestamp b)) (getTime (timestamp a)).

(** The filtering step of [applySortingAndFilters]. *)
Definition filter_items (items : list GalleryItem) (key : string) : list GalleryItem :=
  if String.eqb key "all" then items
  else filter (fun item => String.eqb (getBalanceLabel item) key) items.

(** [filteredItems] as [applySortingAndFilters] computes it. *)
Definition view (items : list GalleryItem) (key sortOpt : string) : list GalleryItem :=
  sort (comparator sortOpt) (filter_items items key).

Definition applySortingAndFilters (st : page) : page :=
  mkPage (allGalleryItems st)
         (view (allGalleryItems st) (activePresetFilter st) (sortOption st))
         (sortOption st) (activePresetFilter st) (showAuthModal st) (alerts st).

Definition set_showAuthModal (st : page) : page :=
  mkPage (allGalleryItems st) (filteredItems st) (sortOption st)
         (activePresetFilter st) true (alerts st).

(** [deleteItem id], with the answers of [isAuthenticated()], of
    [confirm(...)] and of the DELETE request ([None] on success). Returns
    the new state and the ids whose DELETE was issued. *)
Definition deleteItem (st : page) (target : string) (authenticated confirmed : bool)
    (response : option Errors.HttpError) : page * list string :=
  if negb authenticated then (set_showAuthModal st, [])
  else if negb confirmed then (st, [])
  else
    match response with
    | None =>
        let st' := mkPage (filter (fun item => id_differs (id item) target)
                                  (allGalleryItems st))
                          (filteredItems st) (sortOption st) (activePresetFilter st)
                          (showAuthModal st) (alerts st) in
        (applySortingAndFilters st', [target])
    | Some e =>
        let msg := Errors.deleteGalleryItem_error e in
        if includes "Authentication required" msg then (set_showAuthModal st, [target])
        else (mkPage (allGalleryItems st) (filteredItems st) (sortOption st)
                     (activePresetFilter st) (showAuthModal st)
                     (alerts st ++ ["Failed to delete item: " ++
                                    (if String.eqb msg "" then "Unknown error" else msg)]%string),
              [target])
    end.
End Page.

End GalleryPage.

(* ------------------------------------------------------------------ *)
(** ** Job submission page ([style-transfer-page.component.ts]) *)

Module TransferPage.

(** The part of [StyleTransferPageComponent] [onApplyStyle] reads and
    writes; [contentFile] is [contentImage?.file] ([None] when there is
    no image or it carries no file). *)
Record tpage := mkT {
  contentFile : option string;
  styleFile : option string;
  isProcessing : bool;
  showAuthModal : bool
}.

(** Requests sent to the remote service. *)
Inductive request := TransferRequest (content style : string).

(** [canApplyStyle], bound to the style controls' [canApply] input. *)
Definition canApplyStyle (st : tpage) : bool :=
  match contentFile st, styleFile st with
  | Some _, Some _ => negb (isProcessing st)
  | _, _ => false
  end.

(** The synchronous part of [onApplyStyle], given the answer of
    [authService.isAuthenticated()]: the new state and the requests
    issued ([transferStyle]). *)
Definition onApplyStyle (st : tpage) (authenticated : bool) : tpage * list request :=
  match contentFile st, styleFile st with
  | Some c, Some s =>
      if negb authenticated then
        (mkT (contentFile st) (styleFile st) (isProcessing st) true, [])
      else
        (mkT (contentFile st) (styleFile st) true (showAuthModal st), [TransferRequest c s])
  | _, _ => (st, [])
  end.

End TransferPage.

(* ------------------------------------------------------------------ *)
(** ** Job tracking on the page: the subscriber of [pollJobStatus] in
    [onApplyStyle] ([style-transfer-page.component.ts]) *)

Module JobTracking.
Import Polling.

(** [currentJob.status] and [isProcessing]. *)
Record tracked := mkTr { t_status : status; t_processing : bool }.

(** State right after [transferStyle] answered: [currentJob = job] with
    status 'pending', [isProcessing] still true. *)
Definition submitted : tracked := mkTr Pending true.

(** The [next] and [error] callbacks of the status subscription. *)
Definition on_output (tr : tracked) (o : output) : tracked :=
  match o with
  | Next s =>
      if keep_polling s then mkTr s (t_processing tr) else mkTr s false
  | Error => mkTr Failed false
  | Complete => tr
  end.

Definition track (tr : tracked) (os : list output) : tracked := fold_left on_output os tr.

End JobTracking.

(* ------------------------------------------------------------------ *)
(** ** HTTP interceptor ([app.config.ts]) *)

Module Interceptor.
Import JS Auth.

(** [String.prototype.toLowerCase] on a header name (an ASCII token). *)
Definition lower_ascii (c : ascii) : ascii :=
  let n := nat_of_ascii c in
  if (Nat.leb 65 n && Nat.leb n 90)%bool then ascii_of_nat (n + 32) else c.

Fixpoint lower (s : string) : string :=
  match s with
  | EmptyString => EmptyString
  | String c rest => String (lower_ascii c) (lower rest)
  end.

(** [HttpHeaders]: the entries in insertion order, under the name first
    used; names are compared after [toLowerCase]. *)
Definition headers := list (string * string).

Definition same_name (k n : string) : bool := String.eqb (lower n) (lower k).

(** [req.clone({ setHeaders: { k: v } })], i.e. [headers.set(k, v)]: the
    entry whose lower-cased name is that of [k] gets the value [v], in
    place and under its name; with no such entry, [(k, v)] is appended. *)
Fixpoint set_header (k v : string) (hs : headers) : headers :=
  match hs with
  | [] => [(k, v)]
  | (n, x) :: rest =>
      if same_name k n then (n, v) :: rest else (n, x) :: set_header k v rest
  end.

(** [authInterceptor] on the headers of an outgoing request. *)
Definition authInterceptor (st : storage) (hs : headers) : headers :=
  match getItem "auth_token" st with
  | Some token =>
      if truthy (JStr token) then set_header "Authorization" ("Bearer " ++ token)%string hs
      else hs
  | None => hs
  end.



End Interceptor.

(* ------------------------------------------------------------------ *)
(** ** Result URLs ([StyleTransferService.getResultUrl],
    [GalleryService.getFullUrl]) *)

Module Urls.
Import JS.

(** [s.lastIndexOf(needle)] for a non-empty [needle]: the last position
    where [needle] starts, or -1. *)
Fixpoint last_index_from (i : nat) (hay needle : string) (acc : Z) : Z :=
  match hay with
  | EmptyString => acc
  | String _ rest =>
      last_index_from (S i) rest needle (if String.prefix needle hay then Z.of_nat i else acc)
  end.

Definition lastIndexOf (hay needle : string) : Z := last_index_from 0 hay needle (-1).

(** [s.substring(0, e)]: a negative end counts as 0. *)
Definition substring0 (s : string) (e : Z) : string :=
  if Z.leb e 0 then "" else substring 0 (Z.to_nat e) s.

(** [apiUrl.substring(0, apiUrl.lastIndexOf('/api'))], computed by both
    services from [environment.apiUrl]. *)
Definition baseUrl (apiUrl : string) : string :=
  substring0 apiUrl (lastIndexOf apiUrl "/api").

(** [StyleTransferService.getResultUrl]. *)
Definition getResultUrl (apiUrl relativeUrl : string) : string :=
  if String.prefix "http" relativeUrl then relativeUrl
  else (baseUrl apiUrl ++ relativeUrl)%string.

(** [GalleryService.getFullUrl]. *)
Definition getFullUrl (apiUrl relativeUrl : string) : string :=
  if negb (truthy (JStr relativeUrl)) then "" else
  if String.prefix "http" relativeUrl then relativeUrl
  else (baseUrl apiUrl ++ relativeUrl)%string.

End Urls.

(** ** The admin page ([admin-page.component.ts]) *)

Module Admin.
Import JS.

(** The requests the page sends, tagged by the callback that handles the
    answer. *)
Inductive kind :=
  | KLoadRequests | KLoadUsers
  | KApprove | KReject | KDeleteRequest | KCreateUser | KDeleteUser.

Definition is_mutation (k : kind) : bool :=
  match k with KLoadRequests | KLoadUsers => false | _ => true end.

Record request := mkReq {
  r_kind : kind;
  r_method : string;
  r_url : string;
  r_body : option jsval;
  r_headers : list (string * string)
}.

(** Component state. *)
Record admin := mkAdmin {
  requests : jsval;
  users : jsval;
  isLoadingRequests : bool;
  isLoadingUsers : bool;
  isProcessing : bool;
  showRejectReasonModal : bool;
  currentRejectRequestId : option string;
  rejectReason : string;
  newUserEmail : string;
  newUserPassword : string;
  alerts : list string
}.

Definition initial : admin :=
  mkAdmin (JArr []) (JArr []) false false false false None "" "" "" [].

Definition set_requests v st := mkAdmin v (users st) (isLoadingRequests st) (isLoadingUsers st)
  (isProcessing st) (showRejectReasonModal st) (currentRejectRequestId st) (rejectReason st)
  (newUserEmail st) (newUserPassword st) (alerts st).
Definition set_users v st := mkAdmin (requests st) v (isLoadingRequests st) (isLoadingUsers st)
  (isProcessing st) (showRejectReasonModal st) (currentRejectRequestId st) (rejectReason st)
  (newUserEmail st) (newUserPassword st) (alerts st).
Definition set_isLoadingRequests b st := mkAdmin (requests st) (users st) b (isLoadingUsers st)
  (isProcessing st) (showRejectReasonModal st) (currentRejectRequestId st) (rejectReason st)
  (newUserEmail st) (newUserPassword st) (alerts st).
Definition set_isLoadingUsers b st := mkAdmin (requests st) (users st) (isLoadingRequests st) b
  (isProcessing st) (showRejectReasonModal st) (currentRejectRequestId st) (rejectReason st)
  (newUserEmail st) (newUserPassword st) (alerts st).
Definition set_isProcessing b st := mkAdmin (requests st) (users st) (isLoadingRequests st)
  (isLoadingUsers st) b (showRejectReasonModal st) (currentRejectRequestId st) (rejectReason st)
  (newUserEmail st) (newUserPassword st) (alerts st).
Definition set_reject (show : bool) (rid : option string) (reason : string) st :=
  mkAdmin (requests st) (users st) (isLoadingRequests st) (isLoadingUsers st) (isProcessing st)
  show rid reason (newUserEmail st) (newUserPassword st) (alerts st).
Definition set_newUser (email password : string) st :=
  mkAdmin (requests st) (users st) (isLoadingRequests st) (isLoadingUsers st) (isProcessing st)
  (showRejectReasonModal st) (currentRejectRequestId st) (rejectReason st) email password
  (alerts st).
Definition add_alert (m : string) st :=
  mkAdmin (requests st) (users st) (isLoadingRequests st) (isLoadingUsers st) (isProcessing st)
  (showRejectReasonModal st) (currentRejectRequestId st) (rejectReason st) (newUserEmail st)
  (newUserPassword st) (alerts st ++ [m]).

(** [null] or [undefined]: reading a property of it throws a TypeError. *)
Definition nullish (v : jsval) : bool :=
  match v with JNull | JUndef => true | _ => false end.

Section Methods.
(** [environment.apiUrl]. *)
Variable apiUrl : string.
(** The storage [authService.getAuthHeaders()] reads. *)
Variable ls : Auth.storage.
(** [encodeURIComponent]. *)
Variable encodeURIComponent : string -> string.

Definition hs := Auth.getAuthHeaders ls.

(** Each method returns the new state and the requests it sends, in order. *)
Definition loadRequests (st : admin) : admin * list request :=
  (set_isLoadingRequests true st,
   [mkReq KLoadRequests "GET" (apiUrl ++ "/auth/requests") None hs]).

Definition loadUsers (st : admin) : admin * list request :=
  (set_isLoadingUsers true st, [mkReq KLoadUsers "GET" (apiUrl ++ "/auth/users") None hs]).

Definition approveRequest (requestId : string) (st : admin) : admin * list request :=
  (set_isProcessing true st,
   [mkReq KApprove "POST" (apiUrl ++ "/auth/requests/" ++ requestId ++ "/approve")
          (Some (JObj [])) hs]).

Definition showRejectModal (requestId : string) (st : admin) : admin :=
  set_reject true (Some requestId) "" st.

Definition cancelReject (st : admin) : admin := set_reject false None "" st.

Definition confirmReject (st : admin) : admin * list request :=
  match currentRejectRequestId st with
  | Some rid =>
      if String.eqb rid "" then (st, [])
      else (set_isProcessing true st,
            [mkReq KReject "POST" (apiUrl ++ "/auth/requests/" ++ rid ++ "/reject")
                   (Some (JObj [("reason", or (JStr (rejectReason st)) JUndef)])) hs])
  | None => (st, [])
  end.

(** [confirmed]: the answer of [confirm(...)]. *)
Definition deleteRequest (requestId : string) (confirmed : bool) (st : admin)
    : admin * list request :=
  if negb confirmed then (st, [])
  else (set_isProcessing true st,
        [mkReq KDeleteRequest "DELETE" (apiUrl ++ "/auth/requests/" ++ requestId) None hs]).

Definition createUser (st : admin) : admin * list request :=
  if String.eqb (newUserEmail st) "" || String.eqb (newUserPassword st) "" then (st, [])
  else (set_isProcessing true st,
        [mkReq KCreateUser "POST" (apiUrl ++ "/auth/users")
               (Some (JObj [("email", JStr (newUserEmail st));
                            ("password", JStr (newUserPassword st))])) hs]).

Definition deleteUser (email : string) (confirmed : bool) (st : admin) : admin * list request :=
  if negb confirmed then (st, [])
  else (set_isProcessing true st,
        [mkReq KDeleteUser "DELETE" (apiUrl ++ "/auth/users/" ++ encodeURIComponent email)
               None hs]).

(** The [next] callbacks, on the response body. On a [null] body
    [response.requests] throws before anything is assigned. *)
Definition on_next (k : kind) (body : jsval) (st : admin) : admin * list request :=
  match k with
  | KLoadRequests =>
      if nullish body then (st, [])
      else (set_isLoadingRequests false (set_requests (get "requests" body) st), [])
  | KLoadUsers =>
      if nullish body then (st, [])
      else (set_isLoadingUsers false (set_users (get "users" body) st), [])
  | KApprove =>
      let (s1, r1) := loadRequests st in
      let (s2, r2) := loadUsers s1 in
      (set_isProcessing false s2, r1 ++ r2)
  | KReject =>
      let (s1, r1) := loadRequests st in
      (set_isProcessing false (cancelReject s1), r1)
  | KDeleteRequest =>
      let (s1, r1) := loadRequests st in
      (set_isProcessing false s1, r1)
  | KCreateUser =>
      let (s1, r1) := loadUsers st in
      (set_isProcessing false (set_newUser "" "" s1), r1)
  | KDeleteUser =>
      let (s1, r1) := loadUsers st in
      (set_isProcessing false s1, r1)
  end.

(** The [error] callbacks. *)
Definition on_error (k : kind) (e : Errors.HttpError) (st : admin) : admin * list request :=
  match k with
  | KLoadRequests => (set_isLoadingRequests false st, [])
  | KLoadUsers => (set_isLoadingUsers false st, [])
  | KCreateUser =>
      let m := if String.eqb (Errors.detail e) "" then "Failed to create user"
               else Errors.detail e in
      (set_isProcessing false (add_alert m st), [])
  | _ => (set_isProcessing false st, [])
  end.

(** What happens on the page: clicks on its buttons (a button bound to
    [[disabled]] sends no click while disabled), typing into the bound
    inputs, and the answer to one of the requests in flight. *)
Inductive event :=
  | Init (admin_user : bool)
  | ClickApprove (requestId : string)
  | ClickReject (requestId : string)
  | ClickConfirmReject
  | ClickCancelReject
  | ClickDeleteRequest (requestId : string) (confirmed : bool)
  | ClickCreateUser
  | ClickDeleteUser (email : string) (confirmed : bool)
  | TypeEmail (s : string)
  | TypePassword (s : string)
  | TypeReason (s : string)
  | RespondOk (i : nat) (body : jsval)
  | RespondErr (i : nat) (e : Errors.HttpError).

(** The page and the requests in flight. *)
Definition world := (admin * list request)%type.

Fixpoint remove_nth {A} (i : nat) (l : list A) : list A :=
  match l, i with
  | [], _ => []
  | _ :: l', 0 => l'
  | x :: l', S i' => x :: remove_nth i' l'
  end.

Definition issue (pending : list request) (r : admin * list request) : world :=
  (fst r, pending ++ snd r).

Definition step (w : world) (ev : event) : world :=
  let (st, pending) := w in
  match ev with
  | Init adm =>
      (* [ngOnInit]: nothing unless [isAdmin()] *)
      if adm then
        let (s1, r1) := loadRequests st in
        let (s2, r2) := loadUsers s1 in (s2, pending ++ r1 ++ r2)
      else w
  | ClickApprove rid => if isProcessing st then w else issue pending (approveRequest rid st)
  | ClickReject rid => if isProcessing st then w else (showRejectModal rid st, pending)
  | ClickConfirmReject => if isProcessing st then w else issue pending (confirmReject st)
  | ClickCancelReject => (cancelReject st, pending)
  | ClickDeleteRequest rid c =>
      if isProcessing st then w else issue pending (deleteRequest rid c st)
  | ClickCreateUser =>
      if isProcessing st || String.eqb (newUserEmail st) ""
         || String.eqb (newUserPassword st) "" then w
      else issue pending (createUser st)
  | ClickDeleteUser email c =>
      if isProcessing st then w else issue pending (deleteUser email c st)
  | TypeEmail s => (set_newUser s (newUserPassword st) st, pending)
  | TypePassword s => (set_newUser (newUserEmail st) s st, pending)
  | TypeReason s =>
      (set_reject (showRejectReasonModal st) (currentRejectRequestId st) s st, pending)
  | RespondOk i body =>
      match nth_error pending i with
      | Some r => issue (remove_nth i pending) (on_next (r_kind r) body st)
      | None => w
      end
  | RespondErr i e =>
      match nth_error pending i with
      | Some r => issue (remove_nth i pending) (on_error (r_kind r) e st)
      | None => w
      end
  end.

Definition run (w : world) (evs : list event) : world := fold_left step evs w.
End Methods.

End Admin.

(** ** The sign-in modal ([auth-modal.component.ts]) *)

Module AuthModal.
Import JS.

(** Component state: the permission request form and the messages. *)
Record modal := mkModal {
  pr_name : string;
  pr_email : string;
  pr_reason : string;
  isLoading : bool;
  loginError : string;
  requestError : string;
  requestSuccess : bool
}.

(** [error.error?.detail || fallback], the message of the [Error] the
    service's [catchError] throws. *)
Definition service_error (fallback : string) (e : Errors.HttpError) : string :=
  if String.eqb (Errors.detail e) "" then fallback else Errors.detail e.

(** [catchError] of [AuthService.login]. *)
Definition login_error (e : Errors.HttpError) : string := service_error "Login failed" e.

(** [catchError] of [AuthService.submitPermissionRequest]. *)
Definition submitPermissionRequest_error (e : Errors.HttpError) : string :=
  service_error "Failed to submit request" e.

(** [error] callback of [onLogin], on [error.message]. *)
Definition onLogin_error (message : string) (st : modal) : modal :=
  mkModal (pr_name st) (pr_email st) (pr_reason st) false
          (if String.eqb message "" then "Login failed" else message)
          (requestError st) (requestSuccess st).

(** [onSubmitRequest]: the new state, and whether the request is sent. *)
Definition onSubmitRequest (st : modal) : modal * bool :=
  if String.eqb (pr_name st) "" || String.eqb (pr_email st) "" || String.eqb (pr_reason st) ""
  then (mkModal (pr_name st) (pr_email st) (pr_reason st) (isLoading st)
                (loginError st) "Please fill in all fields" false, false)
  else (mkModal (pr_name st) (pr_email st) (pr_reason st) true (loginError st) "" false, true).

(** [next] callback of [onSubmitRequest]. *)
Definition onSubmitRequest_next (st : modal) : modal :=
  mkModal (pr_name st) (pr_email st) (pr_reason st) false (loginError st) (requestError st) true.

(** The [setTimeout] callback, 3 s later. *)
Definition onSubmitRequest_timeout (st : modal) : modal :=
  mkModal "" "" "" (isLoading st) (loginError st) (requestError st) false.

(** [error] callback of [onSubmitRequest], on [error.message]. *)
Definition onSubmitRequest_error (message : string) (st : modal) : modal :=
  mkModal (pr_name st) (pr_email st) (pr_reason st) false (loginError st)
          (if String.eqb message "" then "Failed to submit request" else message)
          (requestSuccess st).
End AuthModal.

(** ** Filter controls of the gallery page *)

Module GalleryFilters.
Import JS Gallery GalleryPage.

Section Controls.
Variable string_to_number : string -> num.
Variable getTime : date -> num.
Variable getPresetLabel : num -> num -> string.

(** [filterByPreset(preset)]. *)
Definition filterByPreset (preset : string) (st : page) : page :=
  applySortingAndFilters string_to_number getTime getPresetLabel
    (mkPage (allGalleryItems st) (filteredItems st) (sortOption st) preset
            (showAuthModal st) (alerts st)).

(** [clearFilters()]. *)
Definition clearFilters (st : page) : page :=
  applySortingAndFilters string_to_number getTime getPresetLabel
    (mkPage (allGalleryItems st) (filteredItems st) "newest" "all"
            (showAuthModal st) (alerts st)).
End Controls.
End GalleryFilters.

(* ================================================================== *)
(** * Properties *)

Module PollingFacts.
Import Polling.

Lemma run_app (st : pstate) (a b : list event) :
  run st (a ++ b) = run (run st a) b.
Proof. unfold run. apply fold_left_app. Qed.

(** Once the subscription has completed or errored, no event changes it:
    no request is issued and nothing is emitted. *)
Lemma run_inactive (st : pstate) (evs : list event) :
  active st = false -> run st evs = st.
Proof.
  intros H. unfold run. induction evs as [|e evs IH]; [reflexivity|].
  simpl. unfold step at 2. rewrite H. simpl. exact IH.
Qed.

Lemma answered_from_app (k : nat) (a b : list status) :
  answered_from k (a ++ b) = answered_from k a ++ answered_from (k + length a) b.
Proof.
  revert k. induction a as [|r a IH]; intros k; simpl.
  - rewrite Nat.add_0_r. reflexivity.
  - rewrite IH. do 3 f_equal. f_equal. lia.
Qed.

Lemma run_answered_keep (pre : list status) (st : pstate) :
  Forall (fun x => keep_polling x = true) pre ->
  active st = true -> inflight st = None ->
  run st (answered_from (next_req st) pre) =
  mkP true None (next_req st + length pre)
      (issued st ++ seq (next_req st) (length pre)) (cancelled st)
      (emitted st ++ map Next pre).
Proof.
  revert st. induction pre as [|r pre IH]; intros [a inf k iss can em] Hall Ha Hi;
    simpl in *; subst.
  - rewrite Nat.add_0_r, !app_nil_r. reflexivity.
  - inversion Hall as [|? ? Hr Hpre]; subst.
    assert (S2 : step (step (mkP true None k iss can em) Tick) (Resp k r)
                 = mkP true None (S k) (iss ++ [k]) can (em ++ [Next r])).
    { unfold step. simpl. rewrite Nat.eqb_refl, Hr. reflexivity. }
    pose proof (IH (mkP true None (S k) (iss ++ [k]) can (em ++ [Next r])) Hpre
                   eq_refl eq_refl) as E.
    unfold run in *. simpl in E |- *. rewrite S2, E. rewrite <- !app_assoc. simpl.
    f_equal. lia.
Qed.

(** C1: when the checks answer [pre ++ s :: post], where every status of
    [pre] is pending/processing and [s] is completed or failed, the caller
    receives exactly [pre ++ [s]], the subscription completes, exactly
    [length pre + 1] requests were issued, and nothing that happens
    afterwards (later ticks or responses) issues a request or emits. *)
Theorem poll_emits_through_first_terminal (pre : list status) (s : status)
    (post : list status) (evs : list event) :
  Forall (fun x => keep_polling x = true) pre ->
  keep_polling s = false ->
  let st := run init (answered (pre ++ s :: post) ++ evs) in
  emitted st = map Next (pre ++ [s]) ++ [Complete] /\
  issued st = seq 0 (length pre + 1) /\
  active st = false.
Proof.
  intros Hpre Hs. cbv zeta.
  unfold answered. rewrite answered_from_app, !run_app.
  pose proof (run_answered_keep pre init Hpre eq_refl eq_refl) as E.
  simpl in E. rewrite E. simpl answered_from.
  assert (T : run (mkP true None (length pre) (seq 0 (length pre)) []
                       (map Next pre)) (Tick :: Resp (length pre) s :: [])
              = mkP false None (S (length pre)) (seq 0 (length pre) ++ [length pre]) []
                    (map Next pre ++ [Next s; Complete])).
  { unfold run. simpl. unfold step. simpl. rewrite Nat.eqb_refl, Hs. reflexivity. }
  change (Tick :: Resp (length pre) s :: answered_from (S (length pre)) post)
    with ([Tick; Resp (length pre) s] ++ answered_from (S (length pre)) post).
  rewrite run_app, T.
  rewrite (run_inactive _ (answered_from _ post)) by reflexivity.
  rewrite (run_inactive _ evs) by reflexivity. simpl.
  rewrite map_app, <- app_assoc. repeat split.
  rewrite Nat.add_1_r, seq_S. reflexivity.
Qed.

(** Witness of C1: the sequence pending, processing, completed. *)
Lemma poll_emits_through_first_terminal_witness :
  Forall (fun x => keep_polling x = true) [Pending; Processing] /\
  keep_polling Completed = false /\
  (emitted (run init (answered [Pending; Processing; Completed] ++ [Tick; Tick])) =
     [Next Pending; Next Processing; Next Completed; Complete] /\
   issued (run init (answered [Pending; Processing; Completed] ++ [Tick; Tick])) =
     [0; 1; 2] /\
   active (run init (answered [Pending; Processing; Completed] ++ [Tick; Tick])) = false).
Proof.
  split; [repeat constructor|]. split; [reflexivity|].
  exact (poll_emits_through_first_terminal [Pending; Processing] Completed []
           [Tick; Tick] ltac:(repeat constructor) eq_refl).
Defined.

(** C2 refuted: two ticks with no response in between leave only one
    request subscribed; the first is cancelled by [switchMap], and its late
    answer is dropped. *)
Lemma poll_slow_check_is_cancelled :
  inflight (run init [Tick; Tick]) = Some 1 /\
  cancelled (run init [Tick; Tick]) = [0] /\
  emitted (run init [Tick; Tick; Resp 0 Completed]) = [] /\
  active (run init [Tick; Tick; Resp 0 Completed]) = true.
Proof. repeat split. Qed.

(** What [switchMap] keeps about cancelled requests: the request in flight
    is the last one issued, and every cancelled request is older than the
    request in flight. *)
Definition cancel_inv (st : pstate) : Prop :=
  (forall m, inflight st = Some m -> S m = next_req st) /\
  (forall n, In n (cancelled st) ->
     n < next_req st /\ (forall m, inflight st = Some m -> n < m)).

Lemma step_cancel_inv (st : pstate) (e : event) :
  cancel_inv st -> cancel_inv (step st e).
Proof.
  intros [Hi Hc]. unfold step. destruct (active st); [|split; assumption]. simpl.
  destruct e as [| n r | n].
  - split; [simpl; intros m Hm; injection Hm as <-; reflexivity|]. simpl.
    intros n Hn. assert (Hold : In n (cancelled st) \/
                                (exists m, inflight st = Some m /\ n = m)).
    { destruct (inflight st) as [m|]; [|left; exact Hn].
      apply in_app_or in Hn as [Hn|[<-|[]]]; [left; exact Hn | right; eauto]. }
    destruct Hold as [Hn'|[m [Hm ->]]].
    + destruct (Hc n Hn') as [Hlt _]. split; [lia|]. intros m Hm. injection Hm as <-. exact Hlt.
    + specialize (Hi m Hm). split; [lia|]. intros m' Hm'. injection Hm' as <-. lia.
  - destruct (match inflight st with Some m => Nat.eqb m n | None => false end);
      [|split; assumption].
    destruct (keep_polling r); (split; [simpl; discriminate|]); simpl;
      intros q Hq; (split; [exact (proj1 (Hc q Hq))|discriminate]).
  - destruct (match inflight st with Some m => Nat.eqb m n | None => false end);
      [|split; assumption].
    split; [simpl; discriminate|]. simpl.
    intros q Hq. split; [exact (proj1 (Hc q Hq))|discriminate].
Qed.

Lemma step_cancelled_mono (st : pstate) (e : event) (n : nat) :
  In n (cancelled st) -> In n (cancelled (step st e)).
Proof.
  intros H. unfold step. destruct (active st); [|exact H]. simpl.
  destruct e as [| q r | q].
  - simpl. destruct (inflight st); [apply in_or_app; left|]; exact H.
  - destruct (match inflight st with Some m => Nat.eqb m q | None => false end);
      [destruct (keep_polling r)|]; exact H.
  - destruct (match inflight st with Some m => Nat.eqb m q | None => false end); exact H.
Qed.

Lemma run_cancel_inv (st : pstate) (evs : list event) :
  cancel_inv st -> cancel_inv (run st evs) /\
  (forall n, In n (cancelled st) -> In n (cancelled (run st evs))).
Proof.
  unfold run. revert st. induction evs as [|e evs IH]; intros st H; [split; auto|].
  simpl. destruct (IH (step st e) (step_cancel_inv st e H)) as [H1 H2].
  split; [exact H1|]. intros n Hn. apply H2, step_cancelled_mono, Hn.
Qed.

Lemma cancelled_ignored (st : pstate) (n : nat) (r : status) :
  cancel_inv st -> In n (cancelled st) ->
  step st (Resp n r) = st /\ step st (RespErr n) = st.
Proof.
  intros [_ Hc] Hn. destruct (Hc n Hn) as [_ Hlt]. unfold step.
  destruct (active st); [|split; reflexivity]. simpl.
  destruct (inflight st) as [m|] eqn:Hm; [|split; reflexivity].
  specialize (Hlt m eq_refl). destruct (Nat.eqb_spec m n); [lia|]. split; reflexivity.
Qed.

(** C2 as the code behaves: in every run, each tick while subscribed issues
    a new request whether or not the previous one has answered; the request
    in flight, if any, is cancelled and the new one becomes the only one
    subscribed; and once a request has been cancelled, its answer (or
    failure) is ignored whenever it arrives, after any further ticks and
    answers. *)
Theorem poll_tick_switches_request (evs : list event) :
  let st := run init evs in
  (active st = true ->
     let st' := step st Tick in
     inflight st' = Some (next_req st) /\
     issued st' = issued st ++ [next_req st] /\
     cancelled st' = cancelled st ++ match inflight st with Some m => [m] | None => [] end /\
     emitted st' = emitted st) /\
  (forall n later r, In n (cancelled st) ->
     step (run st later) (Resp n r) = run st later /\
     step (run st later) (RespErr n) = run st later).
Proof.
  cbv zeta.
  assert (H0 : cancel_inv init) by (split; [discriminate | intros n []]).
  destruct (run_cancel_inv init evs H0) as [Hinv _].
  split.
  - intros Ha. unfold step at 1 2 3 4. rewrite Ha. simpl.
    split; [reflexivity|]. split; [reflexivity|]. split; [|reflexivity].
    destruct (inflight (run init evs)); [reflexivity | rewrite app_nil_r; reflexivity].
  - intros n later r Hn.
    destruct (run_cancel_inv (run init evs) later Hinv) as [Hinv' Hmono].
    exact (cancelled_ignored _ n r Hinv' (Hmono n Hn)).
Qed.

Lemma poll_tick_switches_request_witness :
  In 0 (cancelled (run init [Tick; Tick])) /\
  step (run (run init [Tick; Tick]) [Tick; Resp 1 Processing]) (Resp 0 Completed) =
    run (run init [Tick; Tick]) [Tick; Resp 1 Processing] /\
  inflight (step (run init [Tick]) Tick) = Some 1.
Proof.
  assert (H : In 0 (cancelled (run init [Tick; Tick]))) by (left; reflexivity).
  split; [exact H|]. split.
  - exact (proj1 (proj2 (poll_tick_switches_request [Tick; Tick]) 0
                   [Tick; Resp 1 Processing] Completed H)).
  - exact (proj1 (proj1 (poll_tick_switches_request [Tick]) eq_refl)).
Defined.

End PollingFacts.

Module FormatFacts.
Import JS Format.

(** C9: the documented outputs of [formatValue]. *)
Theorem formatValue_examples (number_to_string : Q -> string) :
  formatValue number_to_string (ANum (Fin 1500000)) = "1.5M" /\
  formatValue number_to_string (ANum (Fin 2500)) = "2.5K" /\
  formatValue number_to_string (ANum (Fin (1 # 2))) = "0.50" /\
  formatValue number_to_string AUndefined = "--" /\
  formatValue number_to_string (ANum NaN) = "N/A" /\
  formatValue number_to_string (ANum PosInf) = "∞".
Proof. repeat split; vm_compute; reflexivity. Qed.

End FormatFacts.

Module GalleryFacts.
Import JS Gallery.

Lemma ensureNumber_spec (stn : string -> num) (v : jsval) :
  is_nan (ensureNumber stn v) = false /\
  ((v = JUndef \/ v = JNull \/ is_nan (to_number stn v) = true) -> ensureNumber stn v = Fin 0) /\
  (v <> JUndef -> v <> JNull -> is_nan (to_number stn v) = false ->
     ensureNumber stn v = to_number stn v).
Proof.
  unfold ensureNumber.
  destruct v; try (repeat split; intros; congruence);
    destruct (is_nan (to_number stn _)) eqn:E; repeat split; intros; try congruence;
    try reflexivity; try (destruct H as [H|[H|H]]; congruence).
Qed.

(** C8 refuted: a raw item without [parameters] is ingested with
    [numSteps = 300], not 0. *)
Lemma mapGalleryItem_numSteps_defaults_to_300 :
  ~ (forall (stn : string -> num) (item : jsval) (g : GalleryItem),
       mapGalleryItem stn item = MItem g ->
       exists n, numSteps (params g) = JNum n /\
                 (get "numSteps" (get "parameters" item) = JUndef -> n = Fin 0)).
Proof.
  intros H. destruct (H (fun _ => NaN) (JObj []) _ eq_refl) as [n [En Hn]].
  simpl in En. injection En as <-. specialize (Hn eq_refl). discriminate Hn.
Qed.

(** C8 as the code behaves: for a raw item that is not falsy, styleLoss,
    contentLoss, processingTime, styleWeight and contentWeight are each
    [ensureNumber] of the raw value: 0 when it is null, undefined or
    [Number(v)] is NaN, otherwise [Number(v)], so never NaN; numSteps is
    the raw value when truthy, else 300, with no numeric coercion. *)
Theorem mapGalleryItem_fields (stn : string -> num) (item : jsval) :
  truthy item = true ->
  let p := get "parameters" item in
  exists g, mapGalleryItem stn item = MItem g /\
    styleLoss g = ensureNumber stn (get "styleLoss" item) /\
    contentLoss g = ensureNumber stn (get "contentLoss" item) /\
    processingTime g = ensureNumber stn (get "processingTime" item) /\
    styleWeight (params g) = ensureNumber stn (get "styleWeight" p) /\
    contentWeight (params g) = ensureNumber stn (get "contentWeight" p) /\
    Forall (fun n => is_nan n = false)
      [styleLoss g; contentLoss g; processingTime g;
       styleWeight (params g); contentWeight (params g)] /\
    numSteps (params g) =
      (if truthy (get "numSteps" p) then get "numSteps" p else JNum (Fin 300)) /\
    (forall v, (v = JUndef \/ v = JNull \/ is_nan (to_number stn v) = true) ->
       ensureNumber stn v = Fin 0) /\
    (forall v, v <> JUndef -> v <> JNull -> is_nan (to_number stn v) = false ->
       ensureNumber stn v = to_number stn v).
Proof.
  intros Ht p. unfold mapGalleryItem. rewrite Ht. simpl.
  eexists. split; [reflexivity|]. simpl.
  do 5 (split; [reflexivity|]).
  split; [repeat constructor; apply ensureNumber_spec|].
  split; [unfold or; reflexivity|].
  split; intros v; apply ensureNumber_spec.
Qed.

Lemma mapGalleryItem_fields_witness :
  truthy (JObj [("styleLoss", JNum (Fin 2))]) = true /\
  exists g, mapGalleryItem (fun _ => NaN) (JObj [("styleLoss", JNum (Fin 2))]) = MItem g.
Proof.
  split; [reflexivity|].
  destruct (mapGalleryItem_fields (fun _ => NaN) (JObj [("styleLoss", JNum (Fin 2))])
              eq_refl) as [g [Eg _]].
  exists g. exact Eg.
Defined.

End GalleryFacts.

Module AuthFacts.
Import JS Auth.

(** C10: with a stored user record that is not JSON, [getStoredUser]
    returns null, [isAdmin] returns false, and no Session Manager
    operation throws. *)
Theorem getStoredUser_corrupt_record (json_parse : string -> option jsval)
    (json_stringify : jsval -> string) (sv : service) (s : string) :
  getItem userKey (ls sv) = Some s -> json_parse s = None ->
  getStoredUser json_parse (ls sv) = Ok JNull /\
  isAdmin json_parse (ls sv) = Ok (JBool false) /\
  (forall o, exists r, run_op json_parse json_stringify o sv = Ok r).
Proof.
  intros Hs Hp.
  assert (G : getStoredUser json_parse (ls sv) = Ok JNull).
  { unfold getStoredUser. rewrite Hs. unfold parse. rewrite Hp.
    destruct (truthy (JStr s)); reflexivity. }
  split; [exact G|].
  assert (A : isAdmin json_parse (ls sv) = Ok (JBool false)).
  { unfold isAdmin. rewrite G. reflexivity. }
  split; [exact A|].
  intros o; destruct o; simpl; try (eexists; reflexivity).
  - rewrite G. eexists. reflexivity.
  - rewrite A. eexists. reflexivity.
Qed.

Lemma getStoredUser_corrupt_record_witness :
  getItem userKey [(userKey, "{not json")] = Some "{not json" /\
  getStoredUser (fun _ => None) [(userKey, "{not json")] = Ok JNull.
Proof.
  split; [reflexivity|].
  exact (proj1 (getStoredUser_corrupt_record (fun _ => None) (fun _ => "")
                  (mkService [(userKey, "{not json")] JNull) "{not json" eq_refl eq_refl)).
Defined.

End AuthFacts.

Module LoginFacts.
Import JS Login.

(** C3 refuted: with both masterPassword and email supplied, the modal
    issues the request (masterPassword wins); [AuthService.login] with
    neither posts the password alone. *)
Lemma login_both_or_neither_still_posts :
  onLogin (mkCred (Some "a@b.c") "pw" (Some "master")) =
    Post "/auth/login" [("password", "pw"); ("master_password", "master")] /\
  login (mkCred None "pw" None) = Post "/auth/login" [("password", "pw")].
Proof. split; reflexivity. Qed.

(** C3 as the code behaves: the modal refuses locally, with no request,
    exactly when neither masterPassword nor email is supplied (missing or
    empty); a supplied masterPassword takes precedence over email.
    [AuthService.login] itself never refuses: it posts the password with
    master_password if that is supplied, else with email if that is
    supplied, else the password alone. *)
Theorem onLogin_outcomes (lc : LoginCredentials) :
  (present (c_masterPassword lc) = false -> present (c_email lc) = false ->
     onLogin lc = LocalError missing_credentials_msg) /\
  (forall m, c_masterPassword lc = Some m -> present (Some m) = true ->
     onLogin lc = Post "/auth/login" [("password", c_password lc); ("master_password", m)]) /\
  (forall e, present (c_masterPassword lc) = false -> c_email lc = Some e ->
     present (Some e) = true ->
     onLogin lc = Post "/auth/login" [("password", c_password lc); ("email", e)]) /\
  (forall cr m, c_masterPassword cr = Some m -> present (Some m) = true ->
     login cr = Post "/auth/login" [("password", c_password cr); ("master_password", m)]) /\
  (forall cr e, present (c_masterPassword cr) = false -> c_email cr = Some e ->
     present (Some e) = true ->
     login cr = Post "/auth/login" [("password", c_password cr); ("email", e)]) /\
  (forall cr, present (c_masterPassword cr) = false -> present (c_email cr) = false ->
     login cr = Post "/auth/login" [("password", c_password cr)]).
Proof.
  split; [|split; [|split; [|split; [|split]]]].
  - destruct lc as [em pw mp]. unfold onLogin, login. cbn [c_masterPassword c_email c_password].
    intros H1 H2. rewrite H1, H2. reflexivity.
  - destruct lc as [em pw mp]. unfold onLogin, login. cbn [c_masterPassword c_email c_password].
    intros m -> H. unfold present in *. rewrite H. reflexivity.
  - destruct lc as [em pw mp]. unfold onLogin, login. cbn [c_masterPassword c_email c_password].
    intros e H1 -> H. unfold present in *. rewrite H1, H. reflexivity.
  - intros [em pw mp] m. unfold login. cbn [c_masterPassword c_email c_password].
    intros -> H. unfold present in *. rewrite H. reflexivity.
  - intros [em pw mp] e. unfold login. cbn [c_masterPassword c_email c_password].
    intros H1 -> H. unfold present in *. rewrite H1, H. reflexivity.
  - intros [em pw mp]. unfold login. cbn [c_masterPassword c_email c_password].
    intros H1 H2. rewrite H1, H2. reflexivity.
Qed.

End LoginFacts.

Module ErrorsFacts.
Import Errors.

(** C4 refuted: a 401 from the admin page's [loadRequests] is not turned
    into AuthRequired; its handler treats it like any other failure. *)
Lemma admin_401_not_translated :
  delivered_error AdminLoadRequests (mkErr 401 "" None "Unauthorized") <> AuthRequired /\
  loadRequests_error (mkAdmin [] true) (mkErr 401 "" None "Unauthorized") =
  loadRequests_error (mkAdmin [] true) (mkErr 500 "" None "Server Error").
Proof. split; [discriminate | reflexivity]. Qed.

(** C4 as the code behaves: [transferStyle] and [deleteGalleryItem]
    translate a 401, and only a 401, into the AuthRequired error; every
    admin page call hands the raw error to its subscriber, and
    [loadRequests] only clears its loading flag, whatever the status. *)
Theorem auth_required_translation (e : HttpError) :
  (status e = 401 ->
     delivered_error TransferStyle e = AuthRequired /\
     delivered_error DeleteGalleryItem e = AuthRequired) /\
  (status e <> 401 ->
     delivered_error TransferStyle e <> AuthRequired /\
     delivered_error DeleteGalleryItem e <> AuthRequired) /\
  (forall c, c <> TransferStyle -> c <> DeleteGalleryItem -> delivered_error c e = Raw e) /\
  (forall st, loadRequests_error st e = mkAdmin (requests st) false).
Proof.
  split; [intros H; simpl; unfold transferStyle_error, deleteGalleryItem_error;
          rewrite H; split; reflexivity|].
  split.
  - intros H. apply Nat.eqb_neq in H. simpl.
    unfold transferStyle_error, deleteGalleryItem_error, handleError. rewrite H.
    split; intros E; [|destruct (client_event e)]; inversion E.
  - split; [intros c H1 H2; destruct c; solve [congruence | reflexivity] | reflexivity].
Qed.

Lemma auth_required_translation_witness :
  status (mkErr 401 "" None "x") = 401 /\
  delivered_error TransferStyle (mkErr 401 "" None "x") = AuthRequired.
Proof.
  split; [reflexivity|].
  exact (proj1 (proj1 (auth_required_translation (mkErr 401 "" None "x")) eq_refl)).
Defined.

End ErrorsFacts.

Module GalleryPageFacts.
Import JS Gallery GalleryPage.

Lemma insert_perm {A} (cmp : A -> A -> num) (x : A) (ys : list A) :
  Permutation (insert cmp x ys) (x :: ys).
Proof.
  induction ys as [|y ys IH]; simpl; [reflexivity|].
  destruct (num_lt0 (cmp x y)); [reflexivity|].
  eapply perm_trans; [apply perm_skip, IH | apply perm_swap].
Qed.

Lemma sort_fold_perm {A} (cmp : A -> A -> num) (l acc : list A) :
  Permutation (fold_left (fun acc x => insert cmp x acc) l acc) (l ++ acc).
Proof.
  revert acc. induction l as [|x l IH]; intros acc; simpl; [reflexivity|].
  eapply perm_trans; [apply IH|].
  eapply perm_trans; [apply Permutation_app_head, insert_perm|].
  symmetry. apply Permutation_middle.
Qed.

(** Sorting reorders and never adds or drops an item. *)
Lemma sort_perm {A} (cmp : A -> A -> num) (l : list A) : Permutation (sort cmp l) l.
Proof. unfold sort. rewrite <- (app_nil_r l) at 2. apply sort_fold_perm. Qed.

Lemma id_differs_spec (v : jsval) (target : string) :
  id_differs v target = true <-> v <> JStr target.
Proof.
  destruct v; simpl; split; intros H; try discriminate; try reflexivity.
  - intros E. injection E as ->. rewrite String.eqb_refl in H. discriminate.
  - destruct (String.eqb_spec s target); [subst; congruence | reflexivity].
Qed.

Section Partition.
Context {A : Type} (f : A -> string).

Definition by_label (items : list A) (L : string) : list A :=
  filter (fun y => String.eqb (f y) L) items.

Lemma flat_map_by_label_nil (ks : list string) : flat_map (by_label []) ks = [].
Proof. induction ks; simpl; auto. Qed.

Lemma flat_map_by_label_skip (x : A) (xs : list A) (ks : list string) :
  ~ In (f x) ks -> flat_map (by_label (x :: xs)) ks = flat_map (by_label xs) ks.
Proof.
  induction ks as [|k ks IH]; intros Hn; simpl; [reflexivity|].
  unfold by_label at 1. simpl.
  destruct (String.eqb_spec (f x) k) as [E|E]; [exfalso; apply Hn; left; auto|].
  rewrite IH by (intros H; apply Hn; right; exact H). reflexivity.
Qed.

Lemma flat_map_by_label_cons (x : A) (xs : list A) (ks : list string) :
  NoDup ks -> In (f x) ks ->
  Permutation (flat_map (by_label (x :: xs)) ks) (x :: flat_map (by_label xs) ks).
Proof.
  induction ks as [|k ks IH]; intros Hd Hin; [destruct Hin|].
  apply NoDup_cons_iff in Hd as [Hk Hd]. simpl. unfold by_label at 1. simpl.
  destruct (String.eqb_spec (f x) k) as [E|E].
  - subst k. rewrite flat_map_by_label_skip by exact Hk. reflexivity.
  - destruct Hin as [Hin|Hin]; [congruence|].
    eapply perm_trans; [apply Permutation_app_head, IH; assumption|].
    symmetry. apply Permutation_middle.
Qed.

Lemma flat_map_by_label_perm (items : list A) (ks : list string) :
  NoDup ks -> (forall y, In y items -> In (f y) ks) ->
  Permutation (flat_map (by_label items) ks) items.
Proof.
  intros Hd. induction items as [|x xs IH]; intros Hall.
  - rewrite flat_map_by_label_nil. reflexivity.
  - eapply perm_trans; [apply flat_map_by_label_cons; auto; apply Hall; left; auto|].
    apply perm_skip, IH. intros y Hy. apply Hall. right. exact Hy.
Qed.
End Partition.

Lemma flat_map_perm_pointwise {A B} (g h : A -> list B) (ks : list A) :
  (forall k, In k ks -> Permutation (g k) (h k)) ->
  Permutation (flat_map g ks) (flat_map h ks).
Proof.
  induction ks as [|k ks IH]; intros H; simpl; [reflexivity|].
  apply Permutation_app; [apply H; left; auto | apply IH; intros; apply H; right; auto].
Qed.

(** C6: filtering by 'all' keeps the whole base collection (same items,
    hence same ids and count, only reordered by the sort); filtering by any
    other key [L] keeps exactly the items the classifier labels [L]; and the
    views of the distinct labels present together hold every item of the
    base collection exactly once. The classifier is the preset service's
    [getPresetLabel], whose labels are names distinct from the key 'all'. *)
Theorem filter_view_partition (stn : string -> num) (getTime : date -> num)
    (getPresetLabel : num -> num -> string)
    (Hlab : forall s c, getPresetLabel s c <> "all")
    (items : list GalleryItem) (so : string) :
  Permutation (view stn getTime getPresetLabel items "all" so) items /\
  length (view stn getTime getPresetLabel items "all" so) = length items /\
  Permutation (map id (view stn getTime getPresetLabel items "all" so)) (map id items) /\
  (forall L, L <> "all" ->
     Permutation (view stn getTime getPresetLabel items L so)
                 (filter (fun x => String.eqb (getBalanceLabel getPresetLabel x) L) items) /\
     (forall x, In x (view stn getTime getPresetLabel items L so) <->
                In x items /\ getBalanceLabel getPresetLabel x = L)) /\
  Permutation
    (flat_map (fun L => view stn getTime getPresetLabel items L so)
              (nodup string_dec (map (getBalanceLabel getPresetLabel) items)))
    items.
Proof.
  assert (Pall : Permutation (view stn getTime getPresetLabel items "all" so) items).
  { unfold view, filter_items. simpl. apply sort_perm. }
  assert (PL : forall L, L <> "all" ->
     Permutation (view stn getTime getPresetLabel items L so)
                 (filter (fun x => String.eqb (getBalanceLabel getPresetLabel x) L) items)).
  { intros L HL. unfold view, filter_items.
    destruct (String.eqb_spec L "all"); [contradiction|]. apply sort_perm. }
  split; [exact Pall|].
  split; [apply Permutation_length, Pall|].
  split; [apply Permutation_map, Pall|].
  split.
  - intros L HL. split; [apply PL, HL|].
    intros x. split; intros Hx.
    + apply (Permutation_in _ (PL L HL)), filter_In in Hx as [Hx E].
      apply String.eqb_eq in E. auto.
    + apply (Permutation_in _ (Permutation_sym (PL L HL))), filter_In.
      destruct Hx as [Hx E]. split; [exact Hx|]. apply String.eqb_eq, E.
  - eapply perm_trans.
    + apply flat_map_perm_pointwise. intros L HL. apply PL.
      apply nodup_In, in_map_iff in HL as [y [<- _]]. apply Hlab.
    + apply (flat_map_by_label_perm (getBalanceLabel getPresetLabel)).
      * apply NoDup_nodup.
      * intros y Hy. apply nodup_In, in_map, Hy.
Qed.

Definition sample_item (i : string) (sw : Q) : GalleryItem :=
  mkItem (JStr i) DateNow (JStr "") (JStr "") (JStr "") (Fin 0) (Fin 1) (Fin 2) (Fin 3)
         (mkParams (Fin sw) (Fin 1) (JNum (Fin 300)) (JObj [])).

Definition sample_label (s c : num) : string :=
  match s with Fin q => if Qle_bool q 1 then "Balanced" else "Style Heavy" | _ => "Custom" end.

Lemma filter_view_partition_witness :
  (forall s c, sample_label s c <> "all") /\
  Permutation
    (flat_map (fun L => view (fun _ => NaN) (fun _ => NaN) sample_label
                             [sample_item "a" 1; sample_item "b" 5] L "newest")
              (nodup string_dec (map (getBalanceLabel sample_label)
                                     [sample_item "a" 1; sample_item "b" 5])))
    [sample_item "a" 1; sample_item "b" 5].
Proof.
  assert (H : forall s c, sample_label s c <> "all").
  { intros [q| | |] c; simpl; [destruct (Qle_bool q 1)|..]; discriminate. }
  split; [exact H|].
  exact (proj2 (proj2 (proj2 (proj2 (filter_view_partition (fun _ => NaN) (fun _ => NaN)
           sample_label H [sample_item "a" 1; sample_item "b" 5] "newest"))))).
Defined.

(** C5: an unauthenticated delete opens the sign-in prompt, issues no
    request and leaves the base collection alone; a delete whose request
    is refused with 401 does the same; a confirmed, successful delete
    removes from the base collection exactly the items whose id is the
    target, keeps every other item in order, and recomputes the view. *)
Theorem deleteItem_spec (stn : string -> num) (getTime : date -> num)
    (getPresetLabel : num -> num -> string) (st : page) (target : string)
    (confirmed : bool) (response : option Errors.HttpError) :
  let del := deleteItem stn getTime getPresetLabel st target in
  (allGalleryItems (fst (del false confirmed response)) = allGalleryItems st /\
   showAuthModal (fst (del false confirmed response)) = true /\
   snd (del false confirmed response) = []) /\
  (forall e, Errors.status e = 401 ->
     allGalleryItems (fst (del true true (Some e))) = allGalleryItems st /\
     showAuthModal (fst (del true true (Some e))) = true) /\
  (let st' := fst (del true true None) in
   snd (del true true None) = [target] /\
   allGalleryItems st' =
     filter (fun item => id_differs (id item) target) (allGalleryItems st) /\
   (forall x, In x (allGalleryItems st') <-> In x (allGalleryItems st) /\ id x <> JStr target) /\
   filteredItems st' =
     view stn getTime getPresetLabel (allGalleryItems st') (activePresetFilter st) (sortOption st)).
Proof.
  cbv zeta. split; [repeat split|].
  split.
  - intros e H. unfold deleteItem. simpl.
    unfold Errors.deleteGalleryItem_error. rewrite H. simpl. split; reflexivity.
  - split; [reflexivity|]. split; [reflexivity|].
    split; [|reflexivity].
    intros x. simpl. rewrite filter_In, id_differs_spec. tauto.
Qed.

End GalleryPageFacts.

Module TransferPageFacts.
Import TransferPage.

(** C7 refuted: while a job is processing, with both images and a
    session, [onApplyStyle] submits another job; with an image missing it
    returns without reporting any error. *)
Lemma onApplyStyle_while_processing_submits :
  snd (onApplyStyle (mkT (Some "content.png") (Some "style.png") true false) true) =
    [TransferRequest "content.png" "style.png"] /\
  onApplyStyle (mkT None (Some "style.png") false false) true =
    (mkT None (Some "style.png") false false, []).
Proof. split; reflexivity. Qed.

(** C7 as the code behaves: with an image missing, [onApplyStyle] does
    nothing (no request, no error, no state change); without a session it
    opens the sign-in prompt and sends nothing; otherwise it submits,
    whether or not a job is processing. The in-progress guard is
    [canApplyStyle], false while [isProcessing] or an image is missing. *)
Theorem onApplyStyle_guards (st : tpage) :
  ((contentFile st = None \/ styleFile st = None) ->
     forall a, onApplyStyle st a = (st, [])) /\
  (forall c s, contentFile st = Some c -> styleFile st = Some s ->
     onApplyStyle st false = (mkT (Some c) (Some s) (isProcessing st) true, []) /\
     onApplyStyle st true = (mkT (Some c) (Some s) true (showAuthModal st),
                             [TransferRequest c s])) /\
  (canApplyStyle st = true <->
     contentFile st <> None /\ styleFile st <> None /\ isProcessing st = false).
Proof.
  destruct st as [cf sf ip sam]; simpl.
  split; [intros [->| ->] a; [|destruct cf]; reflexivity|].
  split; [intros c s -> ->; split; reflexivity|].
  unfold canApplyStyle; simpl.
  destruct cf, sf, ip; simpl; split; intros H; try discriminate;
    try (decompose [and] H; congruence); repeat split; congruence.
Qed.

End TransferPageFacts.

Module PollingInvariant.
Import Polling PollingFacts.

(** What the subscriber has received so far: pending/processing values,
    then either nothing more (still subscribed), or one terminal value and
    completion, or the error. *)
Definition emitted_shape (st : pstate) : Prop :=
  exists pre, Forall (fun x => keep_polling x = true) pre /\
    ((active st = true /\ emitted st = map Next pre) \/
     (active st = false /\
      ((exists s, keep_polling s = false /\ emitted st = map Next pre ++ [Next s; Complete]) \/
       emitted st = map Next pre ++ [Error]))).

Definition requests_shape (st : pstate) : Prop :=
  issued st = seq 0 (next_req st) /\
  (forall n, inflight st = Some n -> S n = next_req st) /\
  (active st = false -> inflight st = None).

Lemma step_shapes (st : pstate) (e : event) :
  emitted_shape st -> requests_shape st ->
  emitted_shape (step st e) /\ requests_shape (step st e).
Proof.
  intros Hsh Hrq.
  destruct (active st) eqn:Ha.
  2:{ unfold step. rewrite Ha. simpl. split; assumption. }
  destruct Hsh as [pre [Hpre Hem]]. destruct Hrq as [Hiss [Hinf Hina]].
  destruct Hem as [[_ Hem]|[Hf _]]; [|congruence].
  destruct st as [a inf k iss can em]; simpl in *; subst a.
  destruct e as [| n r | n]; unfold step; simpl.
  - split; [exists pre; split; [exact Hpre | left; auto]|].
    split; [simpl; rewrite Hiss; exact (eq_sym (seq_S k 0))|].
    split; [simpl; intros m Hm; injection Hm as <-; reflexivity | simpl; discriminate].
  - destruct (match inf with Some m => Nat.eqb m n | None => false end);
      [|split; [exists pre; split; [exact Hpre | left; auto] | repeat split; auto]].
    destruct (keep_polling r) eqn:Hr.
    + split; [exists (pre ++ [r]); split;
              [apply Forall_app; auto | left; split; [reflexivity|];
               rewrite map_app, Hem; reflexivity]|].
      repeat split; simpl; auto; discriminate.
    + split; [exists pre; split; [exact Hpre | right; split; [reflexivity|];
              left; exists r; rewrite Hem; auto]|].
      repeat split; simpl; auto; discriminate.
  - destruct (match inf with Some m => Nat.eqb m n | None => false end);
      [|split; [exists pre; split; [exact Hpre | left; auto] | repeat split; auto]].
    split; [exists pre; split; [exact Hpre | right; split; [reflexivity|];
            right; rewrite Hem; reflexivity]|].
    repeat split; simpl; auto; discriminate.
Qed.

Lemma run_shapes (evs : list event) (st : pstate) :
  emitted_shape st -> requests_shape st ->
  emitted_shape (run st evs) /\ requests_shape (run st evs).
Proof.
  revert st. induction evs as [|e evs IH]; intros st H1 H2; [auto|].
  unfold run. simpl. destruct (step_shapes st e H1 H2). apply IH; auto.
Qed.

Lemma init_emitted_shape : emitted_shape init.
Proof. exists []. split; [constructor | left; split; reflexivity]. Qed.

Lemma init_requests_shape : requests_shape init.
Proof. split; [reflexivity|]. split; intros; discriminate. Qed.

(** Whatever the order of ticks, responses and failures, the subscriber
    receives pending/processing values, followed by nothing while the
    subscription is live, or by exactly one terminal value and completion,
    or by the error, once it has ended. *)
Theorem poll_output_shape (evs : list event) :
  emitted_shape (run init evs).
Proof.
  exact (proj1 (run_shapes evs init init_emitted_shape init_requests_shape)).
Qed.

(** Whatever the interleaving, requests are numbered 0, 1, 2, ... in
    issue order, only the latest one can be in flight, and none is in
    flight once the subscription has ended. *)
Theorem poll_requests_shape (evs : list event) :
  issued (run init evs) = seq 0 (next_req (run init evs)) /\
  (forall n, inflight (run init evs) = Some n -> S n = next_req (run init evs)) /\
  (active (run init evs) = false -> inflight (run init evs) = None).
Proof.
  exact (proj2 (run_shapes evs init init_emitted_shape init_requests_shape)).
Qed.

(** A failed status check ends the subscription with an error; no later
    tick issues a request and nothing else is emitted. *)
Theorem poll_error_terminates (st : pstate) (n : nat) (evs : list event) :
  active st = true -> inflight st = Some n ->
  let st' := run (step st (RespErr n)) evs in
  active st' = false /\ emitted st' = emitted st ++ [Error] /\
  issued st' = issued st /\ inflight st' = None.
Proof.
  intros Ha Hi. cbv zeta.
  assert (E : step st (RespErr n) =
              mkP false None (next_req st) (issued st) (cancelled st) (emitted st ++ [Error])).
  { unfold step. rewrite Ha, Hi, Nat.eqb_refl. reflexivity. }
  rewrite E, run_inactive by reflexivity. repeat split.
Qed.

Lemma poll_error_terminates_witness :
  active (run init [Tick]) = true /\ inflight (run init [Tick]) = Some 0 /\
  emitted (run (step (run init [Tick]) (RespErr 0)) [Tick; Tick]) = [Error].
Proof.
  split; [reflexivity|]. split; [reflexivity|].
  exact (proj1 (proj2 (poll_error_terminates (run init [Tick]) 0 [Tick; Tick]
                         eq_refl eq_refl))).
Defined.

End PollingInvariant.

Module JobTrackingFacts.
Import Polling PollingInvariant JobTracking.

Lemma track_app (tr : tracked) (a b : list output) :
  track tr (a ++ b) = track (track tr a) b.
Proof. unfold track. apply fold_left_app. Qed.

Lemma track_keep (tr : tracked) (pre : list status) :
  Forall (fun x => keep_polling x = true) pre ->
  t_processing (track tr (map Next pre)) = t_processing tr.
Proof.
  revert tr. induction pre as [|r pre IH]; intros tr H; [reflexivity|].
  inversion H as [|? ? Hr Hpre]; subst. unfold track in *. simpl.
  rewrite IH by exact Hpre. simpl. rewrite Hr. reflexivity.
Qed.

(** Fed with what the polling pipeline emits, the page keeps
    [isProcessing] true exactly while the status subscription is live;
    once it has ended, [currentJob.status] is 'completed' or 'failed'. *)
Theorem processing_tracks_subscription (evs : list event) :
  let st := run init evs in
  let tr := track submitted (emitted st) in
  t_processing tr = active st /\
  (active st = false -> t_status tr = Completed \/ t_status tr = Failed).
Proof.
  cbv zeta.
  destruct (proj1 (run_shapes evs init init_emitted_shape init_requests_shape))
    as [pre [Hpre H]].
  destruct H as [[Ha E]|[Ha [[s [Hs E]]|E]]]; rewrite Ha, E.
  - rewrite track_keep by exact Hpre. split; [reflexivity | discriminate].
  - rewrite track_app. unfold track at 1. simpl.
    remember (fold_left on_output (map Next pre) submitted) as t0.
    unfold on_output. rewrite Hs. simpl. split; [reflexivity|].
    intros _. destruct s; simpl in Hs; try discriminate; auto.
  - rewrite track_app. simpl. split; [reflexivity | auto].
Qed.

End JobTrackingFacts.

Module SessionFacts.
Import JS Auth.

Lemma getItem_removeItem_same (k : string) (st : storage) : getItem k (removeItem k st) = None.
Proof.
  unfold getItem, removeItem. induction st as [|[k' v] st IH]; [reflexivity|]. simpl.
  destruct (String.eqb_spec k' k); simpl.
  - exact IH.
  - destruct (String.eqb_spec k' k); [contradiction|]. exact IH.
Qed.

Lemma getItem_removeItem_other (k k' : string) (st : storage) :
  k <> k' -> getItem k (removeItem k' st) = getItem k st.
Proof.
  intros Hne. unfold getItem, removeItem.
  induction st as [|[j v] st IH]; [reflexivity|]. simpl.
  destruct (String.eqb_spec j k'); simpl.
  - destruct (String.eqb_spec j k); [congruence|]. exact IH.
  - destruct (String.eqb_spec j k); [reflexivity | exact IH].
Qed.

Lemma getItem_setItem_same (k v : string) (st : storage) : getItem k (setItem k v st) = Some v.
Proof. unfold getItem, setItem. simpl. rewrite String.eqb_refl. reflexivity. Qed.

Lemma getItem_setItem_other (k k' v : string) (st : storage) :
  k <> k' -> getItem k (setItem k' v st) = getItem k st.
Proof.
  intros Hne. unfold setItem. unfold getItem at 1. simpl.
  destruct (String.eqb_spec k' k); [congruence|].
  fold (getItem k (removeItem k' st)). apply getItem_removeItem_other, Hne.
Qed.

Lemma tokenKey_userKey : tokenKey <> userKey.
Proof. discriminate. Qed.

(** After [logout], the session reads as anonymous with no network round
    trip: not authenticated, not admin, no authorization header, no
    current user; every other key of the store is left as it was. *)
Theorem logout_clears_session (json_parse : string -> option jsval)
    (json_stringify : jsval -> string) (sv : service) :
  exists sv', run_op json_parse json_stringify OpLogout sv = Ok (sv', OUnit) /\
    isAuthenticated (ls sv') = false /\
    getAuthHeaders (ls sv') = [] /\
    isAdmin json_parse (ls sv') = Ok (JBool false) /\
    currentUser sv' = JNull /\
    (forall k, k <> tokenKey -> k <> userKey -> getItem k (ls sv') = getItem k (ls sv)).
Proof.
  eexists. split; [reflexivity|]. simpl.
  assert (Ht : getItem tokenKey (removeItem userKey (removeItem tokenKey (ls sv))) = None).
  { rewrite getItem_removeItem_other by exact tokenKey_userKey.
    apply getItem_removeItem_same. }
  split; [unfold isAuthenticated, getToken; rewrite Ht; reflexivity|].
  split; [unfold getAuthHeaders, getToken; rewrite Ht; reflexivity|].
  split; [unfold isAdmin, getStoredUser; rewrite getItem_removeItem_same; reflexivity|].
  split; [reflexivity|].
  intros k H1 H2. rewrite !getItem_removeItem_other by assumption. reflexivity.
Qed.

(** [getAuthHeaders] yields the header [Authorization: Bearer <token>]
    exactly when [isAuthenticated()] holds, and no header otherwise. *)
Theorem authHeaders_iff_authenticated (st : storage) :
  (isAuthenticated st = true ->
     exists t, getToken st = Some t /\ getAuthHeaders st = [("Authorization", "Bearer " ++ t)%string]) /\
  (isAuthenticated st = false -> getAuthHeaders st = []).
Proof.
  unfold isAuthenticated, getAuthHeaders.
  destruct (getToken st) as [t|]; split; intros H; try discriminate; try reflexivity.
  - rewrite H. exists t. split; reflexivity.
  - rewrite H. reflexivity.
Qed.

(** [isAdmin] answers [false] or a truthy value; the truthy value is the
    stored record's [isMaster] itself, which need not be a boolean. *)
Theorem isAdmin_result (json_parse : string -> option jsval) (st : storage) :
  exists v, isAdmin json_parse st = Ok v /\
    (v = JBool false \/
     (truthy v = true /\ exists u, getStoredUser json_parse st = Ok u /\ v = get "isMaster" u)).
Proof.
  unfold isAdmin.
  assert (G : exists u, getStoredUser json_parse st = Ok u).
  { unfold getStoredUser. destruct (getItem userKey st) as [s|]; [|eexists; reflexivity].
    destruct (truthy (JStr s)); [|eexists; reflexivity].
    unfold try_catch, parse. destruct (json_parse s); eexists; reflexivity. }
  destruct G as [u Gu]. rewrite Gu. simpl. unfold or.
  destruct (truthy (optional_get "isMaster" u)) eqn:T.
  - eexists. split; [reflexivity|]. right. split; [exact T|].
    exists u. split; [reflexivity|]. destruct u; simpl in T |- *; try discriminate; reflexivity.
  - eexists. split; [reflexivity|]. left. reflexivity.
Qed.

(** A serialisation of the user record, for the witness below. *)
Definition json_stringify_sample (v : jsval) : string := "user-record".

(** After a successful login, the token is stored and attached to
    requests (when non-empty), the current user is the response's
    identity, and — when [JSON.parse] reads back what [JSON.stringify]
    wrote — [isAdmin] answers the response's [is_master], or false. *)
Theorem loginSuccess_session (json_parse : string -> option jsval)
    (json_stringify : jsval -> string) (r : login_response) (sv : service) :
  let user := JObj [("email", or (email r) JNull); ("isMaster", is_master r)] in
  json_stringify user <> "" ->
  json_parse (json_stringify user) = Some user ->
  let sv' := loginSuccess json_stringify r sv in
  getToken (ls sv') = Some (access_token r) /\
  isAuthenticated (ls sv') = truthy (JStr (access_token r)) /\
  currentUser sv' = user /\
  isAdmin json_parse (ls sv') = Ok (or (is_master r) (JBool false)).
Proof.
  intros user Hne Hrt sv'.
  assert (Ht : getToken (ls sv') = Some (access_token r)).
  { unfold getToken, sv', loginSuccess. simpl.
    rewrite getItem_setItem_other by exact tokenKey_userKey. apply getItem_setItem_same. }
  split; [exact Ht|].
  split; [unfold isAuthenticated; rewrite Ht; reflexivity|].
  split; [reflexivity|].
  unfold isAdmin, getStoredUser, sv', loginSuccess. cbn [ls].
  rewrite getItem_setItem_same. fold user.
  assert (T : truthy (JStr (json_stringify user)) = true).
  { simpl. destruct (String.eqb_spec (json_stringify user) ""); [contradiction | reflexivity]. }
  rewrite T. unfold try_catch, parse. rewrite Hrt. reflexivity.
Qed.

Lemma loginSuccess_session_witness :
  json_stringify_sample (JObj [("email", or (JStr "a@b.c") JNull); ("isMaster", JBool true)])
    <> "" /\
  isAdmin (fun _ => Some (JObj [("email", JStr "a@b.c"); ("isMaster", JBool true)]))
    (ls (loginSuccess json_stringify_sample (mkResp "tok" (JBool true) (JStr "a@b.c"))
                      (mkService [] JNull))) = Ok (JBool true).
Proof.
  split; [discriminate|].
  exact (proj2 (proj2 (proj2 (loginSuccess_session
           (fun _ => Some (JObj [("email", JStr "a@b.c"); ("isMaster", JBool true)]))
           json_stringify_sample (mkResp "tok" (JBool true) (JStr "a@b.c"))
           (mkService [] JNull) ltac:(discriminate) eq_refl)))).
Defined.

End SessionFacts.

Module InterceptorFacts.
Import JS Auth Interceptor.




Lemma interceptor_replaces_lowercase_header :
  authInterceptor [("auth_token", "new")] [("authorization", "Bearer old"); ("Accept", "*/*")] =
    [("authorization", "Bearer new"); ("Accept", "*/*")].
Proof. vm_compute. reflexivity. Qed.

End InterceptorFacts.

Module UrlsFacts.
Import JS Urls.

Lemma append_empty_r (s : string) : (s ++ "")%string = s.
Proof. induction s as [|c s IH]; simpl; [reflexivity | rewrite IH; reflexivity]. Qed.

Lemma prefix_app (p a b : string) :
  String.prefix p a = true -> String.prefix p (a ++ b) = true.
Proof.
  revert a. induction p as [|c p IH]; intros a H; [destruct (a ++ b)%string; reflexivity|].
  destruct a as [|c' a]; [discriminate|]. simpl in *.
  destruct (ascii_dec c c'); [apply IH, H | discriminate].
Qed.

(** When the API base URL starts with "http", both resolvers turn every
    non-empty URL into an absolute one and are idempotent: resolving an
    already resolved URL gives it back. [getFullUrl] maps the empty URL to
    the empty URL, [getResultUrl] to the base URL. *)
Theorem resolve_url_absolute_idempotent (apiUrl u : string) :
  String.prefix "http" (baseUrl apiUrl) = true ->
  String.prefix "http" (getResultUrl apiUrl u) = true /\
  getResultUrl apiUrl (getResultUrl apiUrl u) = getResultUrl apiUrl u /\
  (u <> "" -> String.prefix "http" (getFullUrl apiUrl u) = true) /\
  getFullUrl apiUrl (getFullUrl apiUrl u) = getFullUrl apiUrl u /\
  getFullUrl apiUrl "" = "" /\ getResultUrl apiUrl "" = baseUrl apiUrl.
Proof.
  intros Hb.
  assert (R : String.prefix "http" (getResultUrl apiUrl u) = true).
  { unfold getResultUrl. destruct (String.prefix "http" u) eqn:E; [exact E|].
    apply prefix_app, Hb. }
  split; [exact R|].
  split; [unfold getResultUrl at 1; rewrite R; reflexivity|].
  assert (F : u <> "" -> String.prefix "http" (getFullUrl apiUrl u) = true).
  { intros Hu. unfold getFullUrl. simpl.
    destruct (String.eqb_spec u ""); [contradiction|]. simpl.
    destruct (String.prefix "http" u) eqn:E; [exact E|]. apply prefix_app, Hb. }
  split; [exact F|].
  split.
  - destruct (String.eqb_spec u "") as [->|Hu]; [reflexivity|].
    specialize (F Hu). unfold getFullUrl at 1. rewrite F.
    destruct (getFullUrl apiUrl u) eqn:G; [discriminate|]. reflexivity.
  - split; [reflexivity|]. unfold getResultUrl. simpl. apply append_empty_r.
Qed.

Lemma resolve_url_absolute_idempotent_witness :
  String.prefix "http" (baseUrl "https://nst.example.org/api") = true /\
  getFullUrl "https://nst.example.org/api"
    (getFullUrl "https://nst.example.org/api" "/results/1.png") =
  getFullUrl "https://nst.example.org/api" "/results/1.png".
Proof.
  split; [vm_compute; reflexivity|].
  exact (proj1 (proj2 (proj2 (proj2
           (resolve_url_absolute_idempotent "https://nst.example.org/api" "/results/1.png"
              ltac:(vm_compute; reflexivity)))))).
Defined.

(** With an API URL that has no "/api" segment the base URL is empty and
    relative URLs come back unchanged (still relative). *)
Theorem resolve_url_without_api_segment (apiUrl u : string) :
  lastIndexOf apiUrl "/api" = (-1)%Z ->
  baseUrl apiUrl = "" /\ getResultUrl apiUrl u = u /\ getFullUrl apiUrl u = u.
Proof.
  intros H. unfold getFullUrl, getResultUrl, baseUrl, substring0. rewrite H. simpl.
  split; [reflexivity|].
  destruct (String.eqb_spec u "") as [->|Hu]; [split; reflexivity|].
  destruct (String.prefix "http" u); split; reflexivity.
Qed.

Lemma resolve_url_without_api_segment_witness :
  lastIndexOf "http://localhost:8000" "/api" = (-1)%Z /\
  getResultUrl "http://localhost:8000" "/results/1.png" = "/results/1.png".
Proof.
  split; [vm_compute; reflexivity|].
  exact (proj1 (proj2 (resolve_url_without_api_segment "http://localhost:8000"
                         "/results/1.png" ltac:(vm_compute; reflexivity)))).
Defined.

End UrlsFacts.

Module SortFacts.
Import JS Gallery GalleryPage GalleryPageFacts.

Section KeySort.
Context {A : Type} (cmp : A -> A -> num) (key : A -> Q) (P : A -> Prop).
(** On the items considered, the comparator is the difference of keys. *)
Hypothesis Hcmp :
  forall a b, P a -> P b -> num_lt0 (cmp a b) = negb (Qle_bool (key b) (key a)).

Definition key_le (a b : A) : Prop := (key a <= key b)%Q.

Lemma insert_sorted (x : A) (l : list A) :
  P x -> Forall P l -> StronglySorted key_le l -> StronglySorted key_le (insert cmp x l).
Proof.
  intros Hx. induction l as [|y l IH]; intros Hl Hs; simpl.
  - repeat constructor.
  - inversion Hl as [|? ? Hy Hl']; subst. inversion Hs as [|? ? Hs' Hall]; subst.
    rewrite (Hcmp x y Hx Hy).
    destruct (Qle_bool (key y) (key x)) eqn:E; simpl.
    + apply Qle_bool_iff in E. constructor; [apply IH; auto|].
      apply Forall_forall. intros z Hz.
      apply (Permutation_in _ (insert_perm cmp x l)) in Hz. destruct Hz as [<-|Hz];
        [exact E | exact (proj1 (Forall_forall _ _) Hall z Hz)].
    + assert (Lt : (key x < key y)%Q).
      { apply Qnot_le_lt. intros C. apply Qle_bool_iff in C. congruence. }
      constructor; [constructor; auto|]. constructor; [unfold key_le; lra|].
      apply Forall_forall. intros z Hz. pose proof (proj1 (Forall_forall _ _) Hall z Hz).
      unfold key_le in *. lra.
Qed.

Lemma fold_insert_sorted (l acc : list A) :
  Forall P (l ++ acc) -> StronglySorted key_le acc ->
  StronglySorted key_le (fold_left (fun acc x => insert cmp x acc) l acc).
Proof.
  revert acc. induction l as [|x l IH]; intros acc HP Hs; [exact Hs|]. simpl.
  inversion HP as [|? ? Hx HP']; subst. apply Forall_app in HP' as [Hl Hacc].
  apply IH; [apply Forall_app; split; [exact Hl|] |].
  - apply Forall_forall. intros z Hz. apply (Permutation_in _ (insert_perm cmp x acc)) in Hz.
    destruct Hz as [<-|Hz]; [exact Hx | exact (proj1 (Forall_forall _ _) Hacc z Hz)].
  - apply insert_sorted; assumption.
Qed.

Lemma sort_sorted (l : list A) : Forall P l -> StronglySorted key_le (sort cmp l).
Proof.
  intros H. unfold sort. apply fold_insert_sorted; [rewrite app_nil_r; exact H | constructor].
Qed.

Lemma sorted_app_before (a b : list A) :
  StronglySorted key_le (a ++ b) -> forall y z, In y a -> In z b -> key_le y z.
Proof.
  induction a as [|w a IH]; intros Hs y z Hy Hz; [destruct Hy|].
  inversion Hs as [|? ? Hs' Hall]; subst. destruct Hy as [<-|Hy].
  - exact (proj1 (Forall_forall _ _) Hall z (in_or_app _ _ _ (or_intror Hz))).
  - exact (IH Hs' y z Hy Hz).
Qed.

Lemma insert_at_end (x : A) (acc : list A) :
  P x -> Forall P acc -> (forall y, In y acc -> key_le y x) -> insert cmp x acc = acc ++ [x].
Proof.
  intros Hx. induction acc as [|y acc IH]; intros Hacc Hle; [reflexivity|]. simpl.
  inversion Hacc as [|? ? Hy Hacc']; subst.
  rewrite (Hcmp x y Hx Hy).
  assert (E : Qle_bool (key y) (key x) = true) by (apply Qle_bool_iff, Hle; left; auto).
  rewrite E. simpl. rewrite IH; auto. intros z Hz. apply Hle. right. exact Hz.
Qed.

Lemma fold_insert_of_sorted (rest acc : list A) :
  Forall P (acc ++ rest) -> StronglySorted key_le (acc ++ rest) ->
  fold_left (fun acc x => insert cmp x acc) rest acc = acc ++ rest.
Proof.
  revert acc. induction rest as [|x rest IH]; intros acc HP Hs; simpl; [rewrite app_nil_r; reflexivity|].
  apply Forall_app in HP as [Hacc Hxr]. inversion Hxr as [|? ? Hx Hr]; subst.
  rewrite insert_at_end; auto.
  - rewrite IH; [rewrite <- app_assoc; reflexivity | |];
      rewrite <- app_assoc; simpl; [apply Forall_app; auto | exact Hs].
  - intros y Hy. apply (sorted_app_before acc (x :: rest) Hs y x Hy). left. reflexivity.
Qed.

(** Sorting an already sorted list changes nothing. *)
Lemma sort_of_sorted (l : list A) :
  Forall P l -> StronglySorted key_le l -> sort cmp l = l.
Proof. intros HP Hs. unfold sort. apply (fold_insert_of_sorted l []); assumption. Qed.
End KeySort.

Section Keys.
Variable string_to_number : string -> num.
Variable getTime : date -> num.

(** The number each [sortOption] compares, and whether larger comes first. *)
Definition sort_value (so : string) (x : GalleryItem) : num :=
  if String.eqb so "newest" then getTime (timestamp x)
  else if String.eqb so "oldest" then getTime (timestamp x)
  else if String.eqb so "lossAsc" then total_loss x
  else if String.eqb so "lossDesc" then total_loss x
  else if String.eqb so "processingTime" then processingTime x
  else if String.eqb so "steps" then to_number string_to_number (numSteps (params x))
  else getTime (timestamp x).

Definition descending (so : string) : bool :=
  if String.eqb so "newest" then true
  else if String.eqb so "oldest" then false
  else if String.eqb so "lossAsc" then false
  else if String.eqb so "lossDesc" then true
  else if String.eqb so "processingTime" then true
  else if String.eqb so "steps" then true
  else true.

(** Smallest key first: the value, negated for the descending orders. *)
Definition sort_key (so : string) (x : GalleryItem) : Q :=
  match sort_value so x with
  | Fin q => if descending so then (- q)%Q else q
  | _ => 0%Q
  end.

Definition finite_value (so : string) (x : GalleryItem) : Prop :=
  exists q, sort_value so x = Fin q.
End Keys.

Lemma Qle_bool_ext (x y x' y' : Q) :
  ((x <= y)%Q <-> (x' <= y')%Q) -> Qle_bool x y = Qle_bool x' y'.
Proof.
  intros H. destruct (Qle_bool x y) eqn:E1, (Qle_bool x' y') eqn:E2; auto.
  - apply Qle_bool_iff in E1. apply H, Qle_bool_iff in E1. congruence.
  - apply Qle_bool_iff in E2. apply H, Qle_bool_iff in E2. congruence.
Qed.

Lemma lt0_asc (x y : Q) : num_lt0 (num_sub (Fin x) (Fin y)) = negb (Qle_bool y x).
Proof. simpl. f_equal. apply Qle_bool_ext. split; intros; lra. Qed.

Lemma lt0_desc (x y : Q) :
  num_lt0 (num_sub (Fin y) (Fin x)) = negb (Qle_bool (- y) (- x))%Q.
Proof. simpl. f_equal. apply Qle_bool_ext. split; intros; lra. Qed.

(** On items whose compared values are finite, every comparator of the page
    orders by [sort_key]. *)
Lemma comparator_by_key stn getTime (so : string) (a b : GalleryItem) :
  finite_value stn getTime so a -> finite_value stn getTime so b ->
  num_lt0 (comparator stn getTime so a b) =
  negb (Qle_bool (sort_key stn getTime so b) (sort_key stn getTime so a)).
Proof.
  intros [qa Ha] [qb Hb]. unfold finite_value, sort_key, sort_value, descending, comparator in *.
  destruct (String.eqb so "newest");
    [|destruct (String.eqb so "oldest");
    [|destruct (String.eqb so "lossAsc");
    [|destruct (String.eqb so "lossDesc");
    [|destruct (String.eqb so "processingTime");
    [|destruct (String.eqb so "steps")]]]]];
    rewrite Ha, Hb; first [apply lt0_desc | apply lt0_asc].
Qed.

(** For the sort options whose comparator is the difference of two numbers
    read from the items (the dates, the processing time, the step count, and
    the default), the view [applySortingAndFilters] computes is ordered by
    that number (dates newest or oldest first, processing time and steps
    largest first), as long as the numbers are finite; and sorting it again
    with the same comparator leaves it unchanged. (Rounding the difference
    of two finite doubles keeps its sign, so the order is that of the
    exact difference. The loss options add two losses first, which rounds,
    and are left out.) *)
Theorem view_sorted_by_key stn getTime getPresetLabel (items : list GalleryItem)
    (key so : string) (Hasc : so <> "lossAsc") (Hdesc : so <> "lossDesc")
    (Hfin : forall x, In x items -> finite_value stn getTime so x) :
  StronglySorted (key_le (sort_key stn getTime so))
                 (view stn getTime getPresetLabel items key so) /\
  sort (comparator stn getTime so) (view stn getTime getPresetLabel items key so) =
  view stn getTime getPresetLabel items key so.
Proof.
  assert (Hf : Forall (finite_value stn getTime so) (filter_items getPresetLabel items key)).
  { apply Forall_forall. intros x Hx. apply Hfin. unfold filter_items in Hx.
    destruct (String.eqb key "all"); [exact Hx | exact (proj1 (proj1 (filter_In _ _ _) Hx))]. }
  assert (Hv : Forall (finite_value stn getTime so) (view stn getTime getPresetLabel items key so)).
  { apply Forall_forall. intros x Hx. unfold view in Hx.
    apply (Permutation_in _ (sort_perm _ _)) in Hx. exact (proj1 (Forall_forall _ _) Hf x Hx). }
  assert (Hs : StronglySorted (key_le (sort_key stn getTime so))
                              (view stn getTime getPresetLabel items key so)).
  { unfold view. apply (sort_sorted _ (sort_key stn getTime so) (finite_value stn getTime so)); [|exact Hf].
    intros a b Ha Hb. exact (comparator_by_key stn getTime so a b Ha Hb). }
  split; [exact Hs|].
  apply (sort_of_sorted _ (sort_key stn getTime so) (finite_value stn getTime so)); [|exact Hv|exact Hs].
  intros a b Ha Hb. exact (comparator_by_key stn getTime so a b Ha Hb).
Qed.

Definition timed_item (i : string) (pt : Q) : GalleryItem :=
  mkItem (JStr i) DateNow (JStr "") (JStr "") (JStr "") (Fin 0) (Fin 1) (Fin 2) (Fin pt)
         (mkParams (Fin 1) (Fin 1) (JNum (Fin 300)) (JObj [])).

Lemma view_sorted_by_key_witness :
  (forall x, In x [timed_item "a" 4; timed_item "b" 9; timed_item "c" 7] ->
             finite_value (fun _ => NaN) (fun _ => NaN) "processingTime" x) /\
  view (fun _ => NaN) (fun _ => NaN) (fun _ _ => "Balanced")
       [timed_item "a" 4; timed_item "b" 9; timed_item "c" 7] "all" "processingTime" =
    [timed_item "b" 9; timed_item "c" 7; timed_item "a" 4] /\
  StronglySorted (key_le (sort_key (fun _ => NaN) (fun _ => NaN) "processingTime"))
    (view (fun _ => NaN) (fun _ => NaN) (fun _ _ => "Balanced")
          [timed_item "a" 4; timed_item "b" 9; timed_item "c" 7] "all" "processingTime").
Proof.
  assert (H : forall x, In x [timed_item "a" 4; timed_item "b" 9; timed_item "c" 7] ->
              finite_value (fun _ => NaN) (fun _ => NaN) "processingTime" x).
  { intros x [<-|[<-|[<-|[]]]]; eexists; reflexivity. }
  split; [exact H|]. split; [vm_compute; reflexivity|].
  exact (proj1 (view_sorted_by_key (fun _ => NaN) (fun _ => NaN) (fun _ _ => "Balanced")
                  [timed_item "a" 4; timed_item "b" 9; timed_item "c" 7] "all" "processingTime"
                  ltac:(discriminate) ltac:(discriminate) H)).
Defined.

End SortFacts.

Module AdminFacts.
Import JS Admin.

Definition count_mut (l : list request) : nat :=
  length (filter (fun r => is_mutation (r_kind r)) l).

Definition no_kind (k : kind) (l : list request) : Prop := forall r, In r l -> r_kind r <> k.

(** What the page keeps between events: the mutation in flight, and the
    loading flags. *)
Definition inv_mut (w : world) : Prop :=
  count_mut (snd w) = (if isProcessing (fst w) then 1 else 0).

Definition inv_load (w : world) : Prop :=
  (no_kind KLoadRequests (snd w) -> isLoadingRequests (fst w) = false) /\
  (no_kind KLoadUsers (snd w) -> isLoadingUsers (fst w) = false).

(** An answer with a body that is not [null]. *)
Definition body_ok (ev : event) : Prop :=
  match ev with RespondOk _ body => nullish body = false | _ => True end.

Lemma count_mut_app (a b : list request) : count_mut (a ++ b) = count_mut a + count_mut b.
Proof. unfold count_mut. rewrite filter_app, length_app. reflexivity. Qed.

Lemma no_kind_app (k : kind) (a b : list request) :
  no_kind k (a ++ b) <-> no_kind k a /\ no_kind k b.
Proof.
  unfold no_kind. split.
  - intros H. split; intros r Hr; apply H, in_or_app; auto.
  - intros [Ha Hb] r Hr. apply in_app_or in Hr as [Hr|Hr]; auto.
Qed.

Lemma remove_nth_count (l : list request) (i : nat) (r : request) :
  nth_error l i = Some r ->
  count_mut l = count_mut (remove_nth i l) + (if is_mutation (r_kind r) then 1 else 0).
Proof.
  revert i. induction l as [|x l IH]; intros [|i] H; simpl in H; try discriminate.
  - injection H as ->. unfold count_mut. simpl. destruct (is_mutation (r_kind r)); simpl; lia.
  - specialize (IH i H). unfold count_mut in *. simpl.
    destruct (is_mutation (r_kind x)); simpl; lia.
Qed.

Lemma remove_nth_no_kind (k : kind) (l : list request) (i : nat) (r : request) :
  nth_error l i = Some r -> r_kind r <> k -> no_kind k (remove_nth i l) -> no_kind k l.
Proof.
  unfold no_kind. revert i. induction l as [|x l IH]; intros [|i] H Hr Hno; simpl in H; try discriminate.
  - injection H as ->. intros y [Ey|Hy]; [subst y; exact Hr | exact (Hno y Hy)].
  - intros y [Ey|Hy].
    + subst y. exact (Hno x (or_introl eq_refl)).
    + apply (IH i H Hr); [|exact Hy]. intros z Hz. exact (Hno z (or_intror Hz)).
Qed.

Lemma no_kind_cons (k : kind) (r : request) (l : list request) :
  no_kind k (r :: l) -> r_kind r <> k.
Proof. intros H. exact (H r (or_introl eq_refl)). Qed.

Section Responses.
Variables (apiUrl : string) (ls : Auth.storage).

(** The facts about a callback that the invariants need. *)
Definition callback_mut (k : kind) (st : admin) (res : admin * list request) : Prop :=
  count_mut (snd res) = 0 /\
  isProcessing (fst res) = (if is_mutation k then false else isProcessing st).

Definition callback_load (k : kind) (st : admin) (res : admin * list request) : Prop :=
  (no_kind KLoadRequests (snd res) ->
     isLoadingRequests (fst res) = false \/
     (isLoadingRequests (fst res) = isLoadingRequests st /\ k <> KLoadRequests)) /\
  (no_kind KLoadUsers (snd res) ->
     isLoadingUsers (fst res) = false \/
     (isLoadingUsers (fst res) = isLoadingUsers st /\ k <> KLoadUsers)).

Lemma on_next_mut (k : kind) (body : jsval) (st : admin) :
  callback_mut k st (on_next apiUrl ls k body st).
Proof.
  destruct k; simpl; try (destruct (nullish body)); split; reflexivity.
Qed.

Lemma on_next_load (k : kind) (body : jsval) (st : admin) :
  nullish body = false -> callback_load k st (on_next apiUrl ls k body st).
Proof.
  intros Hb. destruct k; simpl; rewrite ?Hb; split; simpl;
    intros H; first [left; reflexivity | right; split; [reflexivity | discriminate]
                    | exfalso; exact (no_kind_cons _ _ _ H eq_refl)
                    | exfalso; exact (H _ (or_intror (or_introl eq_refl)) eq_refl)].
Qed.

Lemma on_error_mut (k : kind) (e : Errors.HttpError) (st : admin) :
  callback_mut k st (on_error k e st).
Proof. destruct k; simpl; split; reflexivity. Qed.

Lemma on_error_load (k : kind) (e : Errors.HttpError) (st : admin) :
  callback_load k st (on_error k e st).
Proof.
  destruct k; simpl; split; simpl;
    intros _; first [left; reflexivity | right; split; [reflexivity | discriminate]].
Qed.
End Responses.

Lemma issue_one_mut (pending : list request) (st : admin) (r : request) :
  inv_mut (st, pending) -> isProcessing st = false -> is_mutation (r_kind r) = true ->
  inv_mut (set_isProcessing true st, pending ++ [r]).
Proof.
  unfold inv_mut. simpl. intros Hc Hp Hm. rewrite Hp in Hc.
  rewrite count_mut_app, Hc. unfold count_mut. simpl. rewrite Hm. reflexivity.
Qed.

Lemma issue_one_load (pending : list request) (st : admin) (r : request) :
  inv_load (st, pending) -> inv_load (set_isProcessing true st, pending ++ [r]).
Proof.
  intros [Hr Hu]. unfold inv_load in *; simpl in *.
  split; intros H; apply no_kind_app in H as [H _]; auto.
Qed.

Lemma respond_mut (pending : list request) (st : admin) (i : nat) (r : request)
    (res : admin * list request) :
  inv_mut (st, pending) -> nth_error pending i = Some r -> callback_mut (r_kind r) st res ->
  inv_mut (issue (remove_nth i pending) res).
Proof.
  unfold inv_mut. simpl. intros Hc En [F1 F2]. destruct res as [s' iss]. simpl in *.
  rewrite (remove_nth_count _ _ _ En) in Hc.
  rewrite count_mut_app, F1, F2.
  destruct (is_mutation (r_kind r)), (isProcessing st); simpl in Hc; lia.
Qed.

Lemma respond_load (pending : list request) (st : admin) (i : nat) (r : request)
    (res : admin * list request) :
  inv_load (st, pending) -> nth_error pending i = Some r -> callback_load (r_kind r) st res ->
  inv_load (issue (remove_nth i pending) res).
Proof.
  intros [Hr Hu] En [F3 F4]. simpl in Hr, Hu. destruct res as [s' iss].
  simpl in F3, F4. unfold inv_load; simpl.
  split; intros Hno; apply no_kind_app in Hno as [Hrem Hiss].
  - destruct (F3 Hiss) as [->|[-> Hk]]; [reflexivity|].
    exact (Hr (remove_nth_no_kind _ _ _ _ En Hk Hrem)).
  - destruct (F4 Hiss) as [->|[-> Hk]]; [reflexivity|].
    exact (Hu (remove_nth_no_kind _ _ _ _ En Hk Hrem)).
Qed.

(** The events that send a request only add to the requests in flight. *)
Ltac same_world Hinv := unfold issue; simpl; rewrite ?app_nil_r; exact Hinv.

Lemma step_inv_mut (apiUrl : string) (ls : Auth.storage) (enc : string -> string)
    (w : world) (ev : event) :
  inv_mut w -> inv_mut (step apiUrl ls enc w ev).
Proof.
  destruct w as [st pending]. intros Hinv.
  destruct ev; simpl.
  - destruct admin_user; [|exact Hinv]. unfold inv_mut in *; simpl in *.
    rewrite count_mut_app, Hinv. unfold count_mut. simpl. apply Nat.add_0_r.
  - destruct (isProcessing st) eqn:Ep; [exact Hinv|]. apply issue_one_mut; auto.
  - destruct (isProcessing st) eqn:Ep; exact Hinv.
  - destruct (isProcessing st) eqn:Ep; [exact Hinv|]. unfold confirmReject.
    destruct (currentRejectRequestId st) as [rid|]; [|same_world Hinv].
    destruct (String.eqb rid ""); [same_world Hinv|]. apply issue_one_mut; auto.
  - exact Hinv.
  - destruct (isProcessing st) eqn:Ep; [exact Hinv|]. unfold deleteRequest.
    destruct confirmed; simpl; [apply issue_one_mut; auto | same_world Hinv].
  - destruct (isProcessing st) eqn:Ep; [exact Hinv|]. simpl. unfold createUser.
    destruct (String.eqb (newUserEmail st) "" || String.eqb (newUserPassword st) "");
      [exact Hinv|]. apply issue_one_mut; auto.
  - destruct (isProcessing st) eqn:Ep; [exact Hinv|]. unfold deleteUser.
    destruct confirmed; simpl; [apply issue_one_mut; auto | same_world Hinv].
  - exact Hinv.
  - exact Hinv.
  - exact Hinv.
  - destruct (nth_error pending i) as [r|] eqn:En; [|exact Hinv].
    exact (respond_mut _ _ _ _ _ Hinv En (on_next_mut _ _ _ _ _)).
  - destruct (nth_error pending i) as [r|] eqn:En; [|exact Hinv].
    exact (respond_mut _ _ _ _ _ Hinv En (on_error_mut _ _ _)).
Qed.

Lemma step_inv_load (apiUrl : string) (ls : Auth.storage) (enc : string -> string)
    (w : world) (ev : event) :
  body_ok ev -> inv_load w -> inv_load (step apiUrl ls enc w ev).
Proof.
  destruct w as [st pending]. intros Hev Hinv.
  destruct ev; simpl.
  - destruct admin_user; [|exact Hinv]. unfold inv_load; simpl.
    split; intros H; apply no_kind_app in H as [_ H]; exfalso;
      [exact (H _ (or_introl eq_refl) eq_refl)
      | exact (H _ (or_intror (or_introl eq_refl)) eq_refl)].
  - destruct (isProcessing st) eqn:Ep; [exact Hinv|]. apply issue_one_load; auto.
  - destruct (isProcessing st) eqn:Ep; exact Hinv.
  - destruct (isProcessing st) eqn:Ep; [exact Hinv|]. unfold confirmReject.
    destruct (currentRejectRequestId st) as [rid|]; [|same_world Hinv].
    destruct (String.eqb rid ""); [same_world Hinv|]. apply issue_one_load; auto.
  - exact Hinv.
  - destruct (isProcessing st) eqn:Ep; [exact Hinv|]. unfold deleteRequest.
    destruct confirmed; simpl; [apply issue_one_load; auto | same_world Hinv].
  - destruct (isProcessing st) eqn:Ep; [exact Hinv|]. simpl. unfold createUser.
    destruct (String.eqb (newUserEmail st) "" || String.eqb (newUserPassword st) "");
      [exact Hinv|]. apply issue_one_load; auto.
  - destruct (isProcessing st) eqn:Ep; [exact Hinv|]. unfold deleteUser.
    destruct confirmed; simpl; [apply issue_one_load; auto | same_world Hinv].
  - exact Hinv.
  - exact Hinv.
  - exact Hinv.
  - destruct (nth_error pending i) as [r|] eqn:En; [|exact Hinv].
    exact (respond_load _ _ _ _ _ Hinv En (on_next_load _ _ _ _ _ Hev)).
  - destruct (nth_error pending i) as [r|] eqn:En; [|exact Hinv].
    exact (respond_load _ _ _ _ _ Hinv En (on_error_load _ _ _)).
Qed.

Lemma run_inv_mut (apiUrl : string) (ls : Auth.storage) (enc : string -> string)
    (evs : list event) (w : world) :
  inv_mut w -> inv_mut (run apiUrl ls enc w evs).
Proof.
  unfold run. revert w. induction evs as [|ev evs IH]; intros w H; [exact H|].
  simpl. apply IH, step_inv_mut, H.
Qed.

Lemma run_inv_load (apiUrl : string) (ls : Auth.storage) (enc : string -> string)
    (evs : list event) (w : world) :
  Forall body_ok evs -> inv_load w -> inv_load (run apiUrl ls enc w evs).
Proof.
  unfold run. revert w. induction evs as [|ev evs IH]; intros w Hok H; [exact H|].
  inversion Hok as [|? ? Hev Hok']; subst. simpl. apply IH; [exact Hok'|].
  apply step_inv_load; assumption.
Qed.

(** On the admin page, whatever the user clicks and in whatever order the
    server answers, at most one mutating request (approve, reject, delete
    request, create user, delete user) is in flight at any time, and
    [isProcessing] is true exactly while one is. *)
Theorem admin_single_mutation_in_flight (apiUrl : string) (ls : Auth.storage)
    (enc : string -> string) (evs : list event) :
  let (st, pending) := run apiUrl ls enc (initial, []) evs in
  count_mut pending = (if isProcessing st then 1 else 0).
Proof.
  pose proof (run_inv_mut apiUrl ls enc evs (initial, [])) as H.
  destruct (run apiUrl ls enc (initial, []) evs) as [st pending].
  apply H. reflexivity.
Qed.

(** As long as no successful answer has a [null] body, the loading
    indicator of the list of requests (users) is off whenever no request
    for that list is in flight. *)
Theorem admin_loading_flags (apiUrl : string) (ls : Auth.storage)
    (enc : string -> string) (evs : list event)
    (Hok : forall i body, In (RespondOk i body) evs -> nullish body = false) :
  let (st, pending) := run apiUrl ls enc (initial, []) evs in
  ((forall r, In r pending -> r_kind r <> KLoadRequests) -> isLoadingRequests st = false) /\
  ((forall r, In r pending -> r_kind r <> KLoadUsers) -> isLoadingUsers st = false).
Proof.
  assert (Hb : Forall body_ok evs).
  { apply Forall_forall. intros [] Hin; simpl; auto. exact (Hok _ _ Hin). }
  pose proof (run_inv_load apiUrl ls enc evs (initial, []) Hb) as H.
  destruct (run apiUrl ls enc (initial, []) evs) as [st pending].
  apply H. split; intros _; reflexivity.
Qed.

Lemma admin_loading_flags_witness :
  (forall i body, In (RespondOk i body)
     [Init true; RespondOk 1 (JObj [("users", JArr [])]); ClickApprove "r1"] ->
     nullish body = false) /\
  let (st, pending) := run "/api" [] (fun s => s) (initial, [])
     [Init true; RespondOk 1 (JObj [("users", JArr [])]); ClickApprove "r1"] in
  ((forall r, In r pending -> r_kind r <> KLoadRequests) -> isLoadingRequests st = false) /\
  ((forall r, In r pending -> r_kind r <> KLoadUsers) -> isLoadingUsers st = false).
Proof.
  assert (H : forall i body, In (RespondOk i body)
     [Init true; RespondOk 1 (JObj [("users", JArr [])]); ClickApprove "r1"] ->
     nullish body = false).
  { intros i body [E|[E|[E|[]]]]; try discriminate. injection E as <- <-. reflexivity. }
  split; [exact H|].
  exact (admin_loading_flags "/api" [] (fun s => s)
           [Init true; RespondOk 1 (JObj [("users", JArr [])]); ClickApprove "r1"] H).
Defined.

(** The admin page never edits its lists of requests and users itself: in
    any event, [requests] ([users]) keeps its value unless the event is the
    successful answer to a request of kind [KLoadRequests] ([KLoadUsers]),
    and then it becomes the [requests] ([users]) field of the answer. *)
Theorem admin_lists_change_only_on_load (apiUrl : string) (ls : Auth.storage)
    (enc : string -> string) (w : world) (ev : event) :
  let w' := step apiUrl ls enc w ev in
  (requests (fst w') = requests (fst w) \/
   exists i body r, ev = RespondOk i body /\ nth_error (snd w) i = Some r /\
                    r_kind r = KLoadRequests /\ requests (fst w') = get "requests" body) /\
  (users (fst w') = users (fst w) \/
   exists i body r, ev = RespondOk i body /\ nth_error (snd w) i = Some r /\
                    r_kind r = KLoadUsers /\ users (fst w') = get "users" body).
Proof.
  destruct w as [st pending]. cbv zeta.
  destruct ev; simpl;
    try (destruct admin_user; simpl; split; left; reflexivity);
    try (destruct (isProcessing st); simpl; split; left; reflexivity);
    try (split; left; reflexivity).
  - destruct (isProcessing st); [split; left; reflexivity|]. unfold confirmReject.
    destruct (currentRejectRequestId st) as [rid|]; [|split; left; reflexivity].
    destruct (String.eqb rid ""); split; left; reflexivity.
  - destruct (isProcessing st); [split; left; reflexivity|].
    destruct confirmed; split; left; reflexivity.
  - destruct (isProcessing st || String.eqb (newUserEmail st) ""
              || String.eqb (newUserPassword st) ""); [split; left; reflexivity|].
    unfold createUser.
    destruct (String.eqb (newUserEmail st) "" || String.eqb (newUserPassword st) "");
      split; left; reflexivity.
  - destruct (isProcessing st); [split; left; reflexivity|].
    destruct confirmed; split; left; reflexivity.
  - destruct (nth_error pending i) as [r|] eqn:En; [|split; left; reflexivity].
    destruct (r_kind r) eqn:Ek; simpl; try destruct (nullish body); simpl; split;
      try (left; reflexivity); right; exists i, body, r; auto.
  - destruct (nth_error pending i) as [r|] eqn:En; [|split; left; reflexivity].
    destruct (r_kind r); split; left; reflexivity.
Qed.

End AdminFacts.

Module FormatEdge.
Import JS Format.

Lemma Qfloor_eq (q : Q) (z : Z) :
  (inject_Z z <= q)%Q -> (q < inject_Z (z + 1))%Q -> Qfloor q = z.
Proof.
  intros H1 H2. pose proof (Qfloor_le q) as F1. pose proof (Qlt_floor q) as F2.
  assert (A : (Qfloor q < z + 1)%Z) by (rewrite Zlt_Qlt; eapply Qle_lt_trans; eauto).
  assert (B : (z < Qfloor q + 1)%Z) by (rewrite Zlt_Qlt; eapply Qle_lt_trans; eauto).
  lia.
Qed.

Lemma Qle_bool_false (x y : Q) : (y < x)%Q -> Qle_bool x y = false.
Proof.
  intros H. destruct (Qle_bool x y) eqn:E; [|reflexivity].
  apply Qle_bool_iff in E. exfalso. apply (Qlt_not_le y x H E).
Qed.

Lemma Qle_bool_true (x y : Q) : (x <= y)%Q -> Qle_bool x y = true.
Proof. apply Qle_bool_iff. Qed.

Lemma toFixed_small (nts : Q -> string) (x : Q) (f : nat) :
  (0 <= x)%Q -> (x < 1000)%Q -> toFixed nts x f = to_fixed_nonneg x f.
Proof.
  intros H0 H1. unfold toFixed.
  rewrite (Qle_bool_false (10 ^ 21)%Q (Qabs x)).
  - rewrite (Qle_bool_true 0 x H0). reflexivity.
  - rewrite (Qabs_pos x H0). apply (Qlt_le_trans _ 1000); [exact H1|].
    apply Qle_bool_iff. reflexivity.
Qed.

(** [formatValue] picks the unit before rounding: a value from 999.995 up
    to 1000 stays below the 1000 threshold and is shown as [1000.00], not
    as [1.0K]. ([value.toFixed(2)] rounds the exact value of the double,
    with no other arithmetic before it.) *)
Theorem formatValue_rounds_past_unit (nts : Q -> string) (v : Q)
    (Hv : (999995 # 1000 <= v < 1000)%Q) :
  formatValue nts (ANum (Fin v)) = "1000.00".
Proof.
  destruct Hv as [Hv1 Hv2]. unfold formatValue.
  rewrite (Qle_bool_false 1000000 v) by lra. rewrite (Qle_bool_false 1000 v) by lra.
  rewrite toFixed_small by lra. unfold to_fixed_nonneg.
  change (inject_Z (10 ^ Z.of_nat 2)) with 100%Q.
  rewrite (Qfloor_eq _ 100000); [reflexivity | |];
    change (inject_Z 100000) with 100000%Q; change (inject_Z (100000 + 1)) with 100001%Q; lra.
Qed.

Lemma formatValue_rounds_past_unit_witness :
  (999995 # 1000 <= 999999 # 1000 < 1000)%Q /\
  formatValue (fun _ => "") (ANum (Fin (999999 # 1000))) = "1000.00".
Proof.
  assert (Hv : (999995 # 1000 <= 999999 # 1000 < 1000)%Q)
    by (split; [apply Qle_bool_iff|]; reflexivity).
  split; [exact Hv|].
  exact (formatValue_rounds_past_unit (fun _ => "") (999999 # 1000) Hv).
Defined.
End FormatEdge.

Module AuthModalFacts.
Import JS AuthModal.

(** The permission request form of the sign-in modal: with a field left
    empty nothing is sent and the modal asks to fill in all fields; once
    sent, a failure shows the server's [detail] when there is one and
    [Failed to submit request] otherwise (never an empty message), and a
    success shows the confirmation, then clears the form. A failed sign-in
    likewise shows the server's [detail] or [Login failed]. *)
Theorem submit_request_flow (st : modal) (e : Errors.HttpError) :
  (if String.eqb (pr_name st) "" || String.eqb (pr_email st) ""
      || String.eqb (pr_reason st) "" then
     snd (onSubmitRequest st) = false /\
     requestError (fst (onSubmitRequest st)) = "Please fill in all fields" /\
     requestSuccess (fst (onSubmitRequest st)) = false
   else
     snd (onSubmitRequest st) = true /\
     (let failed := onSubmitRequest_error (submitPermissionRequest_error e)
                                          (fst (onSubmitRequest st)) in
      requestError failed =
        (if String.eqb (Errors.detail e) "" then "Failed to submit request"
         else Errors.detail e) /\
      requestError failed <> "" /\ requestSuccess failed = false /\
      isLoading failed = false) /\
     (let ok := onSubmitRequest_next (fst (onSubmitRequest st)) in
      requestSuccess ok = true /\ requestError ok = "" /\ isLoading ok = false /\
      let later := onSubmitRequest_timeout ok in
      pr_name later = "" /\ pr_email later = "" /\ pr_reason later = "" /\
      requestSuccess later = false)) /\
  loginError (onLogin_error (login_error e) st) =
    (if String.eqb (Errors.detail e) "" then "Login failed" else Errors.detail e) /\
  loginError (onLogin_error (login_error e) st) <> "".
Proof.
  assert (Hl : loginError (onLogin_error (login_error e) st) =
               (if String.eqb (Errors.detail e) "" then "Login failed" else Errors.detail e)).
  { unfold onLogin_error, login_error, service_error. simpl.
    destruct (String.eqb (Errors.detail e) "") eqn:Hd; [reflexivity|].
    rewrite Hd. reflexivity. }
  assert (Hne : loginError (onLogin_error (login_error e) st) <> "").
  { rewrite Hl. destruct (String.eqb (Errors.detail e) "") eqn:Hd; [discriminate|].
    intros E. rewrite E in Hd. discriminate. }
  refine (conj _ (conj Hl Hne)). clear Hl Hne.
  unfold onSubmitRequest.
  destruct (String.eqb (pr_name st) "" || String.eqb (pr_email st) ""
            || String.eqb (pr_reason st) ""); simpl; [repeat split|].
  split; [reflexivity|]. split; [|repeat split].
  unfold submitPermissionRequest_error, service_error.
  destruct (String.eqb (Errors.detail e) "") eqn:Hd; simpl.
  - repeat split; discriminate.
  - rewrite Hd. repeat split. intros E. rewrite E in Hd. discriminate.
Qed.
End AuthModalFacts.

Module GalleryFiltersFacts.
Import JS Gallery GalleryPage GalleryPageFacts GalleryFilters.

(** Selecting a preset shows exactly the items whose balance label is that
    preset (in some order), or every item for ["all"]; clearing the filters
    shows every loaded item again, sorted newest first, whatever preset was
    selected before. *)
Theorem filter_controls (stn : string -> num) (getTime : date -> num)
    (getPresetLabel : num -> num -> string) (st : page) (preset : string) :
  (forall x, In x (filteredItems (filterByPreset stn getTime getPresetLabel preset st)) <->
             In x (allGalleryItems st) /\
             (preset = "all" \/ getBalanceLabel getPresetLabel x = preset)) /\
  Permutation (filteredItems (clearFilters stn getTime getPresetLabel st)) (allGalleryItems st) /\
  sortOption (clearFilters stn getTime getPresetLabel st) = "newest" /\
  activePresetFilter (clearFilters stn getTime getPresetLabel st) = "all" /\
  clearFilters stn getTime getPresetLabel (filterByPreset stn getTime getPresetLabel preset st) =
  clearFilters stn getTime getPresetLabel st.
Proof.
  split; [|split; [|split; [reflexivity|split; [reflexivity|reflexivity]]]].
  - intros x. simpl. unfold view.
    split; intros H.
    + apply (Permutation_in _ (sort_perm _ _)) in H. unfold filter_items in H.
      destruct (String.eqb_spec preset "all") as [->|Hp]; [auto|].
      apply filter_In in H as [H1 H2]. apply String.eqb_eq in H2. auto.
    + apply (Permutation_in _ (Permutation_sym (sort_perm _ _))). unfold filter_items.
      destruct H as [H1 [->|H2]]; [exact H1|].
      destruct (String.eqb_spec preset "all") as [_|_]; [exact H1|].
      apply filter_In. split; [exact H1|]. apply String.eqb_eq. exact H2.
  - simpl. unfold view, filter_items. simpl. apply sort_perm.
Qed.
End GalleryFiltersFacts.
